(** * diffengine: mask loading transforms, the PixArt-alpha data
      preprocessor and the training configurations

    A shallow embedding of
    - [diffengine/datasets/transforms/loading.py]
      ([random_bbox], [bbox2mask], [LoadMask.transform]),
    - [diffengine/models/editors/pixart_alpha/pixart_alpha_data_preprocessor.py]
      ([PixArtAlphaDataPreprocessor.forward]),
    - the configuration files under [configs/],
    followed by the properties proved about them. *)

From Stdlib Require Import ZArith Lia.
From stdpp Require Import base option list strings gmap fin_maps.

#[local] Set Warnings "-register-all".
Local Open Scope string_scope.
Local Open Scope Z_scope.

(** ** Python values, exceptions and effects *)

Module Py.

(** The exceptions the embedded code can raise. *)
Inductive exn : Set :=
| ValueError
| KeyError
| TypeError
| AttributeError
| AssertionError
| RuntimeError
| NotImplementedError.

#[global] Instance exn_eq_dec : EqDecision exn.
Proof. solve_decision. Defined.

(** A call either returns a value or raises. *)
Inductive result (A : Type) : Type :=
| Ok (a : A)
| Raise (e : exn).
Arguments Ok {A} a.
Arguments Raise {A} e.

#[global] Instance result_ret : MRet result := fun A a => Ok a.
#[global] Instance result_bind : MBind result := fun A B f r =>
  match r with
  | Ok a => f a
  | Raise e => Raise e
  end.
#[global] Instance result_fmap : FMap result := fun A B f r =>
  match r with
  | Ok a => Ok (f a)
  | Raise e => Raise e
  end.

(** A [torch.Tensor]: its shape and its entries in row-major order.  The
    entries are payload only; no embedded function inspects them. *)
Record tensor : Set := Tensor { shape : list nat; elems : list Z }.

#[global] Instance tensor_eq_dec : EqDecision tensor.
Proof. solve_decision. Defined.

(** A [numpy.ndarray] of rank three, as nested rows. *)
Abbreviation ndarray3 := (list (list (list Z))).

(** The Python objects that flow through the embedded functions. *)
Inductive value : Type :=
| VNone
| VBool (b : bool)
| VInt (z : Z)
| VStr (s : string)
| VTuple (l : list value)
| VList (l : list value)
| VDict (d : gmap string value)
| VTensor (t : tensor)
| VArray (a : ndarray3)
| VImage (height width : Z).

(** [d[k]] on a dict. *)
Definition getitem (d : gmap string value) (k : string) : result value :=
  match d !! k with
  | Some v => Ok v
  | None => Raise KeyError
  end.

(** [d.pop(k)]: the value and the dict without the key. *)
Definition dict_pop (d : gmap string value) (k : string)
  : result (value * gmap string value) :=
  match d !! k with
  | Some v => Ok (v, delete k d)
  | None => Raise KeyError
  end.

(** [a + b] for the sequence and integer operands the dataloader
    produces; other operand kinds are a [TypeError] here. *)
Definition add (a b : value) : result value :=
  match a, b with
  | VList x, VList y => Ok (VList (x ++ y))
  | VTuple x, VTuple y => Ok (VTuple (x ++ y))
  | VStr x, VStr y => Ok (VStr (x +:+ y))
  | VInt x, VInt y => Ok (VInt (x + y))
  | _, _ => Raise TypeError
  end.

(** [isinstance(v, int)]; [bool] is a subclass of [int]. *)
Definition as_int (v : value) : option Z :=
  match v with
  | VInt z => Some z
  | VBool b => Some (Z.b2z b)
  | _ => None
  end.

(** The state of [np.random]: the raw draws still to come. *)
Definition rng : Type := nat -> Z.

Definition rng_next (g : rng) : rng := fun n => g (S n).

(** Computations that draw random numbers and may raise. *)
Definition M (A : Type) : Type := rng -> result (A * rng).

#[global] Instance M_ret : MRet M := fun A a g => Ok (a, g).
#[global] Instance M_bind : MBind M := fun A B f m g =>
  match m g with
  | Ok (a, g') => f a g'
  | Raise e => Raise e
  end.

Definition raise {A} (e : exn) : M A := fun _ => Raise e.
Definition lift {A} (r : result A) : M A := fun g =>
  match r with
  | Ok a => Ok (a, g)
  | Raise e => Raise e
  end.

(** The range of [int64], the type [np.random.randint] draws in. *)
Definition int64_min : Z := -9223372036854775808.
Definition int64_max : Z := 9223372036854775807.

(** [np.random.randint(low, high)]: an integer of [[low, high)]; a
    [ValueError] when a bound is outside [int64] (the excluded [high]
    may be [int64_max + 1]) or when the interval is empty. *)
Definition randint (low high : Z) : M Z := fun g =>
  if (low <? int64_min) || (high >? int64_max + 1) || (high <=? low)
  then Raise ValueError
  else Ok (low + g 0%nat mod (high - low), rng_next g).

End Py.
Import Py.

(** ** [diffengine/datasets/transforms/loading.py] *)

Module Loading.

(** [x if isinstance(x, tuple) else (x, x)] *)
Definition to_tuple (v : value) : value :=
  match v with
  | VTuple _ => v
  | _ => VTuple [v; v]
  end.

(** [mmengine.utils.is_tuple_of(v, int)] *)
Definition is_tuple_of_int (v : value) : bool :=
  match v with
  | VTuple l => forallb (fun x => bool_decide (is_Some (as_int x))) l
  | _ => false
  end.

(** [a, b = v] for a tuple of integers. *)
Definition unpack2 (v : value) : result (Z * Z) :=
  match v with
  | VTuple [a; b] =>
      match as_int a, as_int b with
      | Some x, Some y => Ok (x, y)
      | _, _ => Raise TypeError
      end
  | _ => Raise ValueError
  end.

(** The three checks [random_bbox] makes before it draws, on the unpacked
    arguments. *)
Definition mask_exceeds_image (img_h img_w max_mask_h max_mask_w : Z) : bool :=
  (max_mask_h >? img_h) || (max_mask_w >? img_w).

Definition delta_exceeds_mask (max_mask_h max_mask_w max_delta_h max_delta_w : Z)
  : bool :=
  (max_delta_h / 2 * 2 >=? max_mask_h) || (max_delta_w / 2 * 2 >=? max_mask_w).

Definition margin_unsatisfiable
  (img_h img_w max_mask_h max_mask_w margin_h margin_w : Z) : bool :=
  (img_h - max_mask_h <? 2 * margin_h) || (img_w - max_mask_w <? 2 * margin_w).

(** Default arguments of [random_bbox]. *)
Definition default_max_bbox_delta : value := VInt 40.
Definition default_min_margin : value := VInt 20.

Definition random_bbox
  (img_shape : Z * Z) (max_bbox_shape max_bbox_delta min_margin : value)
  : M (Z * Z * Z * Z) :=
  let max_bbox_shape := to_tuple max_bbox_shape in
  let max_bbox_delta := to_tuple max_bbox_delta in
  let min_margin := to_tuple min_margin in
  if negb (is_tuple_of_int max_bbox_shape) then raise AssertionError else
  if negb (is_tuple_of_int max_bbox_delta) then raise AssertionError else
  if negb (is_tuple_of_int min_margin) then raise AssertionError else
  let '(img_h, img_w) := img_shape in
  '(max_mask_h, max_mask_w) ← lift (unpack2 max_bbox_shape);
  '(max_delta_h, max_delta_w) ← lift (unpack2 max_bbox_delta);
  '(margin_h, margin_w) ← lift (unpack2 min_margin);
  if mask_exceeds_image img_h img_w max_mask_h max_mask_w
  then raise ValueError else
  if delta_exceeds_mask max_mask_h max_mask_w max_delta_h max_delta_w
  then raise ValueError else
  if margin_unsatisfiable img_h img_w max_mask_h max_mask_w margin_h margin_w
  then raise ValueError else
  (* get the max value of (top, left) *)
  let max_top := img_h - margin_h - max_mask_h in
  let max_left := img_w - margin_w - max_mask_w in
  (* randomly select a (top, left) *)
  top ← randint margin_h max_top;
  left ← randint margin_w max_left;
  (* randomly shrink the shape of mask box according to max_bbox_delta *)
  delta_top ← randint 0 (max_delta_h / 2 + 1);
  delta_left ← randint 0 (max_delta_w / 2 + 1);
  let top := top + delta_top in
  let left := left + delta_left in
  let h := max_mask_h - delta_top in
  let w := max_mask_w - delta_left in
  mret (top, left, h, w).

(** [np.zeros((h, w, c))]: negative dimensions are refused. *)
Definition np_zeros (h w c : Z) : result ndarray3 :=
  if (h <? 0) || (w <? 0) || (c <? 0) then Raise ValueError
  else Ok (replicate (Z.to_nat h)
             (replicate (Z.to_nat w) (replicate (Z.to_nat c) 0))).

(** One bound of a unit-step slice over an axis of length [n], as
    [slice.indices] normalises it: negative bounds count from the end
    and every bound is clipped to the axis. *)
Definition slice_bound (x n : Z) : Z :=
  if x <? 0 then Z.max (x + n) 0 else Z.min x n.

(** [l[start:stop] = ...], with [f] applied to each selected position;
    a full slice [l[:] = ...] is [f <$> l]. *)
Definition assign_slice {A} (start stop : Z) (f : A -> A) (l : list A) : list A :=
  let n := Z.of_nat (length l) in
  let a := Z.to_nat (slice_bound start n) in
  let b := Z.to_nat (slice_bound stop n) in
  take a l ++ (f <$> take (b - a) (drop a l)) ++ drop (a + (b - a)) l.

Definition bbox2mask (img_shape : Z * Z) (bbox : Z * Z * Z * Z) : result ndarray3 :=
  let '(height, width) := img_shape in
  let '(b0, b1, b2, b3) := bbox in
  mask ← np_zeros height width 1;
  Ok (assign_slice b0 (b0 + b2)
        (assign_slice b1 (b1 + b3) (fmap (M := list) (fun _ : Z => 1)))
        mask).

(** [np.sum] of a mask. *)
Definition np_sum (m : ndarray3) : Z :=
  foldr Z.add 0 ((fun row => foldr Z.add 0 (foldr Z.add 0 <$> row)) <$> m).

(** [mask[i, j, c]] *)
Definition entry (m : ndarray3) (i j c : nat) : option Z :=
  row ← m !! i; px ← row !! j; px !! c.

Record LoadMask : Type := {
  mask_mode : string;
  mask_config : gmap string value
}.

(** [LoadMask.__init__(mask_mode="bbox", mask_config=None)] *)
Definition init (mask_mode : option string) (mask_config : option value)
  : result LoadMask :=
  let mode := default "bbox" mask_mode in
  match mask_config with
  | None => Ok {| mask_mode := mode; mask_config := ∅ |}
  | Some (VDict d) => Ok {| mask_mode := mode; mask_config := d |}
  | Some _ => Raise AssertionError
  end.

(** [random_bbox(img_shape=img_shape, **mask_config)]: binding of the
    keyword arguments, then the call. *)
Definition random_bbox_kwargs (img_shape : Z * Z) (kwargs : gmap string value)
  : M (Z * Z * Z * Z) :=
  if negb (bool_decide
             (dom kwargs ⊆ ({[ "max_bbox_shape"; "max_bbox_delta"; "min_margin" ]}
                            : gset string)))
  then raise TypeError else
  match kwargs !! "max_bbox_shape" with
  | None => raise TypeError
  | Some max_bbox_shape =>
      random_bbox img_shape max_bbox_shape
        (default default_max_bbox_delta (kwargs !! "max_bbox_delta"))
        (default default_min_margin (kwargs !! "min_margin"))
  end.

Definition bbox_value (b : Z * Z * Z * Z) : value :=
  let '(top, lft, h, w) := b in VTuple [VInt top; VInt lft; VInt h; VInt w].

Section Transform.
(** The irregular and free-form generators draw with OpenCV and PIL in
    floating point; [transform] only dispatches to them. *)
Variable get_irregular_mask : Z * Z -> gmap string value -> M ndarray3.
Variable brush_stroke_mask : Z * Z -> gmap string value -> M ndarray3.

Definition transform (self : LoadMask) (results : gmap string value)
  : M (gmap string value) :=
  img ← lift (getitem results "img");
  img_shape ← lift (match img with
                    | VImage height width => Ok (height, width)
                    | _ => Raise AttributeError
                    end);
  if String.eqb (mask_mode self) "bbox" then
    mask_bbox ← random_bbox_kwargs img_shape (mask_config self);
    mask ← lift (bbox2mask img_shape mask_bbox);
    let results := <["mask_bbox" := bbox_value mask_bbox]> results in
    mret (<["mask" := VArray mask]> results)
  else if String.eqb (mask_mode self) "irregular" then
    mask ← get_irregular_mask img_shape (mask_config self);
    mret (<["mask" := VArray mask]> results)
  else if String.eqb (mask_mode self) "ff" then
    mask ← brush_stroke_mask img_shape (mask_config self);
    mret (<["mask" := VArray mask]> results)
  else raise NotImplementedError.
End Transform.

End Loading.

(** ** [diffengine/models/editors/pixart_alpha/pixart_alpha_data_preprocessor.py] *)

Module PixArt.

Definition as_tensor (v : value) : option tensor :=
  match v with
  | VTensor t => Some t
  | _ => None
  end.

(** [torch.stack(v)] along a new first dimension: [v] is a sequence of
    tensors, non-empty and of one shape. *)
Definition torch_stack (v : value) : result tensor :=
  match v with
  | VList l | VTuple l =>
      match mapM as_tensor l with
      | None => Raise TypeError
      | Some [] => Raise RuntimeError
      | Some (t :: ts) =>
          if forallb (fun u => bool_decide (shape u = shape t)) ts
          then Ok (Tensor (length (t :: ts) :: shape t)
                     (concat (elems <$> t :: ts)))
          else Raise RuntimeError
      end
  | _ => Raise TypeError
  end.

(** Number of entries of a tensor of shape [s]. *)
Definition numel (s : list nat) : nat := foldr Nat.mul 1%nat s.

Definition tensor_wf (t : tensor) : Prop := length (elems t) = numel (shape t).

(** [b[k]]: the [k]-th slice of [b] along its first dimension. *)
Definition select (b : tensor) (k : nat) : option tensor :=
  match shape b with
  | [] => None
  | n :: s =>
      if decide (k < n)%nat
      then Some (Tensor s (take (numel s) (drop (k * numel s) (elems b))))
      else None
  end.

(** [k in d] *)
Definition contains (d : gmap string value) (k : string) : bool :=
  bool_decide (is_Some (d !! k)).

(** The receiver of [.pop(key)] with a string key. *)
Definition pop_receiver (v : value) : result (gmap string value) :=
  match v with
  | VDict d => Ok d
  | VList _ => Raise TypeError
  | _ => Raise AttributeError
  end.

(** [inputs[key] = inputs[key] + inputs["result_class_image"].pop(key)];
    the pop acts on the sub-dict that [inputs] keeps holding. *)
Definition append_class (key : string) (inputs : gmap string value)
  : result (gmap string value) :=
  a ← getitem inputs key;
  rci ← getitem inputs "result_class_image" ≫= pop_receiver;
  '(b, rci) ← dict_pop rci key;
  let inputs := <["result_class_image" := VDict rci]> inputs in
  s ← add a b;
  Ok (<[key := s]> inputs).

(** [inputs[key] = torch.stack(inputs[key])] *)
Definition stack_key (key : string) (inputs : gmap string value)
  : result (gmap string value) :=
  v ← getitem inputs key;
  t ← torch_stack v;
  Ok (<[key := VTensor t]> inputs).

(** [if key in inputs: step] *)
Definition when_present (key : string)
  (step : gmap string value -> result (gmap string value))
  (inputs : gmap string value) : result (gmap string value) :=
  if contains inputs key then step inputs else Ok inputs.

(** The block under [if "result_class_image" in data["inputs"]]. *)
Definition append_class_image (inputs : gmap string value)
  : result (gmap string value) :=
  (* dreambooth with class image *)
  inputs ← append_class "text" inputs;
  inputs ← append_class "img" inputs;
  inputs ← when_present "resolution" (append_class "resolution") inputs;
  when_present "aspect_ratio" (append_class "aspect_ratio") inputs.

(** The stacking statements that follow it. *)
Definition stack_inputs (inputs : gmap string value)
  : result (gmap string value) :=
  inputs ← stack_key "img" inputs;
  (* pre-compute text embeddings *)
  inputs ← when_present "resolution" (stack_key "resolution") inputs;
  when_present "aspect_ratio" (stack_key "aspect_ratio") inputs.

(** The body of [forward] up to the [super().forward(data)] call: the
    dict that call receives.  The dataloader hands over a dict under
    [inputs]; any other value there is a [TypeError] here. *)
Definition forward_args (data : gmap string value) : result (gmap string value) :=
  inputs ← getitem data "inputs" ≫=
             (fun v => match v with VDict d => Ok d | _ => Raise TypeError end);
  inputs ← when_present "result_class_image" append_class_image inputs;
  inputs ← stack_inputs inputs;
  Ok (<["inputs" := VDict inputs]> data).

Section Forward.
(** [BaseDataPreprocessor.forward] of the training framework. *)
Context {R : Type}.
Variable base_forward : gmap string value -> result R.

Definition forward (data : gmap string value) (training : bool) : result R :=
  forward_args data ≫= base_forward.
End Forward.

(** The keys of [data["inputs"]] that [forward] assigns. *)
Definition touched_keys : list string :=
  ["img"; "text"; "resolution"; "aspect_ratio"; "result_class_image"].

End PixArt.

(** ** The configuration files under [configs/] *)

Module Configs.

(** The literals a configuration file is written with.  [CFloat m e] is
    the decimal literal [m * 10^e]; [CBaseRef p] is the substitution
    [{{_base_.p}}] of a value of the base files. *)
Inductive cfg : Type :=
| CNone
| CBool (b : bool)
| CInt (z : Z)
| CFloat (mantissa exponent : Z)
| CStr (s : string)
| CList (l : list cfg)
| CDict (d : list (string * cfg))
| CBaseRef (path : string).

(** [d[k]] on a dict literal: the last binding of the key wins. *)
Fixpoint assoc (k : string) (d : list (string * cfg)) : option cfg :=
  match d with
  | [] => None
  | (k', v) :: d' =>
      match assoc k d' with
      | Some w => Some w
      | None => if String.eqb k k' then Some v else None
      end
  end.

Definition cfg_get (k : string) (c : cfg) : option cfg :=
  match c with
  | CDict d => assoc k d
  | _ => None
  end.

(** [l * n] on a list literal. *)
Definition list_mul (l : list cfg) (n : nat) : list cfg := concat (replicate n l).

Definition is_dict (c : cfg) : bool :=
  match c with CDict _ => true | _ => false end.

Definition is_str (c : cfg) : bool :=
  match c with CStr _ => true | _ => false end.

(** A file as the sequence of its top-level assignments. *)
Definition file : Type := list (string * cfg).

Module pokemon_blip_xl.
Definition train_pipeline : cfg := CList [
  CDict [("type", CStr "SaveImageShape")];
  CDict [("type", CStr "torchvision/Resize");
         ("size", CInt 1024);
         ("interpolation", CStr "bilinear")];
  CDict [("type", CStr "RandomCrop");
         ("size", CInt 1024)];
  CDict [("type", CStr "RandomHorizontalFlip");
         ("p", CFloat 5 (-1))];
  CDict [("type", CStr "ComputeTimeIds")];
  CDict [("type", CStr "torchvision/ToTensor")];
  CDict [("type", CStr "torchvision/Normalize");
         ("mean", CList [CFloat 5 (-1)]);
         ("std", CList [CFloat 5 (-1)])];
  CDict [("type", CStr "PackInputs");
         ("input_keys", CList [CStr "img"; CStr "text"; CStr "time_ids"])]
].
Definition train_dataloader : cfg := CDict [
  ("batch_size", CInt 2);
  ("num_workers", CInt 2);
  ("dataset", CDict [("type", CStr "HFDataset");
                     ("dataset", CStr "lambdalabs/pokemon-blip-captions");
                     ("pipeline", train_pipeline)]);
  ("sampler", CDict [("type", CStr "DefaultSampler");
                     ("shuffle", CBool true)])
].
Definition val_dataloader : cfg := CNone.
Definition val_evaluator : cfg := CNone.
Definition test_dataloader : cfg := val_dataloader.
Definition test_evaluator : cfg := val_evaluator.
Definition custom_hooks : cfg := CList [
  CDict [("type", CStr "VisualizationHook");
         ("prompt", CList (list_mul [CStr "yoda pokemon"] 4));
         ("height", CInt 1024);
         ("width", CInt 1024)];
  CDict [("type", CStr "SDCheckpointHook")]
].
Definition vars : file := [
  ("train_pipeline", train_pipeline);
  ("train_dataloader", train_dataloader);
  ("val_dataloader", val_dataloader);
  ("val_evaluator", val_evaluator);
  ("test_dataloader", test_dataloader);
  ("test_evaluator", test_evaluator);
  ("custom_hooks", custom_hooks)
].
End pokemon_blip_xl.

Module google_backpack_dreambooth_xl.
Definition train_pipeline : cfg := CList [
  CDict [("type", CStr "SaveImageShape")];
  CDict [("type", CStr "torchvision/Resize");
         ("size", CInt 1024);
         ("interpolation", CStr "bilinear")];
  CDict [("type", CStr "RandomCrop");
         ("size", CInt 1024)];
  CDict [("type", CStr "RandomHorizontalFlip");
         ("p", CFloat 5 (-1))];
  CDict [("type", CStr "ComputeTimeIds")];
  CDict [("type", CStr "torchvision/ToTensor")];
  CDict [("type", CStr "DumpImage");
         ("max_imgs", CInt 10);
         ("dump_dir", CStr "work_dirs/dump")];
  CDict [("type", CStr "torchvision/Normalize");
         ("mean", CList [CFloat 5 (-1)]);
         ("std", CList [CFloat 5 (-1)])];
  CDict [("type", CStr "PackInputs");
         ("input_keys", CList [CStr "img"; CStr "text"; CStr "time_ids"])]
].
Definition train_dataloader : cfg := CDict [
  ("batch_size", CInt 2);
  ("num_workers", CInt 4);
  ("dataset", CDict [("type", CStr "HFDreamBoothDataset");
                     ("dataset", CStr "google/dreambooth");
                     ("dataset_sub_dir", CStr "backpack");
                     ("instance_prompt", CStr "A photo of sks backpack");
                     ("pipeline", train_pipeline);
                     ("class_prompt", CNone)]);
  ("sampler", CDict [("type", CStr "InfiniteSampler");
                     ("shuffle", CBool true)])
].
Definition val_dataloader : cfg := CNone.
Definition val_evaluator : cfg := CNone.
Definition test_dataloader : cfg := val_dataloader.
Definition test_evaluator : cfg := val_evaluator.
Definition custom_hooks : cfg := CList [
  CDict [("type", CStr "VisualizationHook");
         ("prompt",
          CList (list_mul [CStr "A photo of sks backpack in the Grand Canyon"] 4));
         ("by_epoch", CBool false);
         ("interval", CInt 100);
         ("height", CInt 1024);
         ("width", CInt 1024)];
  CDict [("type", CStr "LoRASaveHook")]
].
Definition vars : file := [
  ("train_pipeline", train_pipeline);
  ("train_dataloader", train_dataloader);
  ("val_dataloader", val_dataloader);
  ("val_evaluator", val_evaluator);
  ("test_dataloader", test_dataloader);
  ("test_evaluator", test_evaluator);
  ("custom_hooks", custom_hooks)
].
End google_backpack_dreambooth_xl.

Module small_sd_lora.
Definition model : cfg := CDict [
  ("type", CStr "StableDiffusion");
  ("model", CStr "segmind/small-sd");
  ("unet_lora_config", CDict [
     ("type", CStr "LoRA");
     ("r", CInt 8);
     ("lora_alpha", CInt 8);
     ("target_modules",
      CList [CStr "to_q"; CStr "to_v"; CStr "to_k"; CStr "to_out.0"])])
].
Definition vars : file := [("model", model)].
End small_sd_lora.

Module lcm_xl_lora.
Definition model : cfg := CDict [
  ("type", CStr "LatentConsistencyModelsXL");
  ("model", CStr "stabilityai/stable-diffusion-xl-base-1.0");
  ("vae_model", CStr "madebyollin/sdxl-vae-fp16-fix");
  ("loss", CDict [("type", CStr "HuberLoss")]);
  ("pre_compute_text_embeddings", CBool true);
  ("gradient_checkpointing", CBool true);
  ("unet_lora_config", CDict [
     ("type", CStr "LoRA");
     ("r", CInt 8);
     ("lora_alpha", CInt 1);
     ("target_modules",
      CList [CStr "to_q";
             CStr "to_k";
             CStr "to_v";
             CStr "to_out.0";
             CStr "proj_in";
             CStr "proj_out";
             CStr "ff.net.0.proj";
             CStr "ff.net.2";
             CStr "conv1";
             CStr "conv2";
             CStr "conv_shortcut";
             CStr "downsamplers.0.conv";
             CStr "upsamplers.0.conv";
             CStr "time_emb_proj"])])
].
Definition vars : file := [("model", model)].
End lcm_xl_lora.

Module tiny_sd_dreambooth_lora_dog.
Definition _base_ : cfg := CList [
  CStr "../_base_/models/tiny_sd_lora.py";
  CStr "../_base_/datasets/dog_dreambooth.py";
  CStr "../_base_/schedules/stable_diffusion_1k.py";
  CStr "../_base_/default_runtime.py"
].
Definition train_dataloader : cfg := CDict [
  ("dataset", CDict [
     ("class_image_config", CDict [("model", CBaseRef "model.model")])])
].
Definition vars : file := [
  ("_base_", _base_);
  ("train_dataloader", train_dataloader)
].
End tiny_sd_dreambooth_lora_dog.

Module lcm_xl_lora_pokemon_blip.
Definition _base_ : cfg := CList [
  CStr "../_base_/models/lcm_xl_lora.py";
  CStr "../_base_/datasets/pokemon_blip_xl_pre_compute.py";
  CStr "../_base_/schedules/lcm_xl_50e.py";
  CStr "../_base_/default_runtime.py"
].
Definition train_dataloader : cfg := CDict [("batch_size", CInt 2)].
Definition optim_wrapper : cfg := CDict [
  ("optimizer", CDict [("lr", CFloat 1 (-5))]);
  ("accumulative_counts", CInt 2)
].
Definition custom_hooks : cfg := CList [
  CDict [("type", CStr "VisualizationHook");
         ("prompt", CList (list_mul [CStr "yoda pokemon"] 4));
         ("height", CInt 1024);
         ("width", CInt 1024)];
  CDict [("type", CStr "PeftSaveHook")]
].
Definition vars : file := [
  ("_base_", _base_);
  ("train_dataloader", train_dataloader);
  ("optim_wrapper", optim_wrapper);
  ("custom_hooks", custom_hooks)
].
End lcm_xl_lora_pokemon_blip.

Module pixart_alpha_1024_pokemon_blip.
Definition _base_ : cfg := CList [
  CStr "../_base_/models/pixart_alpha_1024.py";
  CStr "../_base_/datasets/pokemon_blip_pixart_lora.py";
  CStr "../_base_/schedules/stable_diffusion_50e.py";
  CStr "../_base_/default_runtime.py"
].
Definition optim_wrapper : cfg := CDict [
  ("_delete_", CBool true);
  ("optimizer", CDict [("type", CStr "AdamW");
                       ("lr", CFloat 1 (-4));
                       ("weight_decay", CFloat 3 (-2))]);
  ("clip_grad", CDict [("max_norm", CFloat 10 (-1))])
].
Definition custom_hooks : cfg := CList [
  CDict [("type", CStr "VisualizationHook");
         ("prompt", CList (list_mul [CStr "yoda pokemon"] 4));
         ("height", CInt 1024);
         ("width", CInt 1024)];
  CDict [("type", CStr "PeftSaveHook")]
].
Definition vars : file := [
  ("_base_", _base_);
  ("optim_wrapper", optim_wrapper);
  ("custom_hooks", custom_hooks)
].
End pixart_alpha_1024_pokemon_blip.

Module stable_diffusion_xl_pokemon_blip_pre_compute.
Definition _base_ : cfg := CList [
  CStr "../_base_/models/stable_diffusion_xl.py";
  CStr "../_base_/datasets/pokemon_blip_xl_pre_compute.py";
  CStr "../_base_/schedules/stable_diffusion_xl_50e.py";
  CStr "../_base_/default_runtime.py"
].
Definition model : cfg := CDict [("pre_compute_text_embeddings", CBool true)].
Definition train_dataloader : cfg := CDict [("batch_size", CInt 1)].
(* update every four times *)
Definition optim_wrapper_cfg : cfg := CDict [("accumulative_counts", CInt 4)].
Definition vars : file := [
  ("_base_", _base_);
  ("model", model);
  ("train_dataloader", train_dataloader);
  ("optim_wrapper_cfg", optim_wrapper_cfg)
].
End stable_diffusion_xl_pokemon_blip_pre_compute.

(** The files of each kind. *)
Definition training_configs : list file := [
  tiny_sd_dreambooth_lora_dog.vars;
  lcm_xl_lora_pokemon_blip.vars;
  pixart_alpha_1024_pokemon_blip.vars;
  stable_diffusion_xl_pokemon_blip_pre_compute.vars
].

Definition dataset_base_configs : list file := [
  pokemon_blip_xl.vars;
  google_backpack_dreambooth_xl.vars
].

Definition lora_model_base_configs : list file := [
  small_sd_lora.vars;
  lcm_xl_lora.vars
].

(** *** Shapes of configuration files *)

(** A [_base_] list that names a model file, a dataset file, a schedule
    file and the default runtime file, in that order. *)
Definition selects_bases (c : cfg) : bool :=
  match c with
  | CList [CStr m; CStr d; CStr s; CStr r] =>
      String.prefix "../_base_/models/" m
      && String.prefix "../_base_/datasets/" d
      && String.prefix "../_base_/schedules/" s
      && String.eqb r "../_base_/default_runtime.py"
  | _ => false
  end.

(** The top-level names a training config may override: dataloader,
    optimizer, hooks and model entries. *)
Definition override_names : list string :=
  ["train_dataloader"; "optim_wrapper"; "optim_wrapper_cfg"; "custom_hooks";
   "model"].

(** A dict literal, or a list of dict literals. *)
Definition is_dict_entry (c : cfg) : bool :=
  match c with
  | CDict _ => true
  | CList l => forallb is_dict l
  | _ => false
  end.

Definition well_formed_training_config (f : file) : bool :=
  match f with
  | ("_base_", bases) :: overrides =>
      selects_bases bases
      && forallb (fun kv => bool_decide (kv.1 ∈ override_names)
                            && is_dict_entry kv.2) overrides
  | _ => false
  end.

(** One step of a pipeline by its transform type and some of its
    parameters. *)
Definition step_spec : Type := string * list (string * cfg).

Definition step_matches (s : step_spec) (step : cfg) : Prop :=
  cfg_get "type" step = Some (CStr s.1)
  ∧ Forall (fun kv => cfg_get kv.1 step = Some kv.2) s.2.

Definition pipeline_is (specs : list step_spec) (pipeline : cfg) : Prop :=
  ∃ steps, pipeline = CList steps ∧ Forall2 step_matches specs steps.

(** The eight steps: save the image shape, resize to 1024, random crop to
    1024, random horizontal flip with probability 0.5, time ids, to
    tensor, normalize with mean 0.5 and std 0.5, pack the inputs. *)
Definition eight_steps : list step_spec := [
  ("SaveImageShape", []);
  ("torchvision/Resize", [("size", CInt 1024)]);
  ("RandomCrop", [("size", CInt 1024)]);
  ("RandomHorizontalFlip", [("p", CFloat 5 (-1))]);
  ("ComputeTimeIds", []);
  ("torchvision/ToTensor", []);
  ("torchvision/Normalize",
   [("mean", CList [CFloat 5 (-1)]); ("std", CList [CFloat 5 (-1)])]);
  ("PackInputs",
   [("input_keys", CList [CStr "img"; CStr "text"; CStr "time_ids"])])
].

(** The same with an image dump between to-tensor and normalize. *)
Definition eight_steps_with_dump : list step_spec :=
  take 6 eight_steps
  ++ [("DumpImage", [("max_imgs", CInt 10); ("dump_dir", CStr "work_dirs/dump")])]
  ++ drop 6 eight_steps.

(** A list of exactly two hooks: a visualization hook with four copies
    of one prompt at 1024x1024, followed by the hook of type
    [save_type], which has no other setting. *)
Definition hooks_visualize_then_save (save_type : string) (hooks : cfg) : Prop :=
  ∃ vis prompt,
    hooks = CList [vis; CDict [("type", CStr save_type)]]
    ∧ cfg_get "type" vis = Some (CStr "VisualizationHook")
    ∧ cfg_get "prompt" vis = Some (CList (replicate 4 (CStr prompt)))
    ∧ cfg_get "height" vis = Some (CInt 1024)
    ∧ cfg_get "width" vis = Some (CInt 1024).

(** The LoRA settings of a model file. *)
Definition lora_config (f : file) : option cfg :=
  assoc "model" f ≫= cfg_get "unet_lora_config".

Definition target_modules (f : file) : option (list cfg) :=
  t ← lora_config f ≫= cfg_get "target_modules";
  match t with
  | CList l => Some l
  | _ => None
  end.

End Configs.

(** ** Vocabulary of the statements *)

Module Statements.
Import Loading PixArt Configs.

(** The disjunction of the three checks of [random_bbox]. *)
Definition validation_fails
  (img_h img_w max_mask_h max_mask_w max_delta_h max_delta_w margin_h margin_w : Z)
  : bool :=
  mask_exceeds_image img_h img_w max_mask_h max_mask_w
  || delta_exceeds_mask max_mask_h max_mask_w max_delta_h max_delta_w
  || margin_unsatisfiable img_h img_w max_mask_h max_mask_w margin_h margin_w.

(** An argument given as an integer [a] (then [b = a]) or as the pair
    [(a, b)]. *)
Definition int_arg (v : value) (a b : Z) : Prop :=
  (v = VInt a ∧ b = a) ∨ v = VTuple [VInt a; VInt b].

(** The bbox clipped to the image, as a predicate on pixels and as an
    area. *)
Definition in_bbox (top left bh bw i j : Z) : bool :=
  bool_decide (top <= i < top + bh ∧ left <= j < left + bw).

Definition clipped_area (height width top left bh bw : Z) : Z :=
  (Z.min (top + bh) height - Z.min top height)
  * (Z.min (left + bw) width - Z.min left width).

(** Every row has [w] pixels and every pixel [c] channels. *)
Definition has_shape (m : ndarray3) (h w c : nat) : Prop :=
  length m = h
  ∧ Forall (fun row => length row = w ∧ Forall (fun px => length px = c) row) m.

Definition supported_modes : list string := ["bbox"; "irregular"; "ff"].

(** The dispatch of [LoadMask.transform] read as a promise that a mask
    key is added for every image and every supported mode. *)
Definition transform_always_adds_mask : Prop :=
  ∀ (irregular ff : Z * Z -> gmap string value -> M ndarray3)
    (self : LoadMask) (results : gmap string value) (height width : Z) (g : rng),
    results !! "img" = Some (VImage height width) →
    mask_mode self ∈ supported_modes →
    ∃ results' g',
      transform irregular ff self results g = Ok (results', g')
      ∧ is_Some (results' !! "mask").

(** A list of tensors of one shape [s]. *)
Definition tensors_of_shape (s : list nat) (ts : list tensor) : Prop :=
  Forall (fun t => shape t = s) ts.

(** [forward] read as stacking exactly the list found under
    [data["inputs"]["img"]] on entry. *)
Definition forward_stacks_the_input_list : Prop :=
  ∀ (data inputs : gmap string value) (ts : list tensor) (s : list nat),
    data !! "inputs" = Some (VDict inputs) →
    inputs !! "img" = Some (VList (VTensor <$> ts)) →
    ts ≠ [] →
    tensors_of_shape s ts →
    ∃ data' inputs' b,
      forward_args data = Ok data'
      ∧ data' !! "inputs" = Some (VDict inputs')
      ∧ inputs' !! "img" = Some (VTensor b)
      ∧ shape b = length ts :: s.

(** An optional sequence entry of [inputs] and of the class sub-dict:
    absent from [inputs], or a list in both. *)
Definition optional_lists (inputs rci : gmap string value) (key : string)
  (xs cs : option (list value)) : Prop :=
  match xs with
  | None => inputs !! key = None
  | Some x =>
      inputs !! key = Some (VList x)
      ∧ ∃ c, cs = Some c ∧ rci !! key = Some (VList c)
  end.

(** [inputs] with the optional entry replaced by the joined lists, and
    the class sub-dict without it. *)
Definition set_joined (key : string) (xs cs : option (list value))
  (inputs : gmap string value) : gmap string value :=
  match xs, cs with
  | Some x, Some c => <[key := VList (x ++ c)]> inputs
  | _, _ => inputs
  end.

Definition popped (key : string) (xs : option (list value))
  (rci : gmap string value) : gmap string value :=
  match xs with
  | Some _ => delete key rci
  | None => rci
  end.

(** The tail of [random_bbox], after its arguments are unpacked and
    checked. *)
Definition draw_bbox
  (img_h img_w max_mask_h max_mask_w max_delta_h max_delta_w margin_h margin_w : Z)
  : M (Z * Z * Z * Z) :=
  top ← randint margin_h (img_h - margin_h - max_mask_h);
  left ← randint margin_w (img_w - margin_w - max_mask_w);
  delta_top ← randint 0 (max_delta_h / 2 + 1);
  delta_left ← randint 0 (max_delta_w / 2 + 1);
  mret (top + delta_top, left + delta_left,
        max_mask_h - delta_top, max_mask_w - delta_left).

(** The rows of a mask: rows the box misses and rows it crosses. *)
Definition blank_row (width : nat) : list (list Z) := replicate width [0].

Definition box_row (width a c : nat) : list (list Z) :=
  (replicate a [0] ++ replicate c [1] ++ replicate (width - (a + c)) [0])%list.

(** Two dicts that agree on every key outside [keys]. *)
Definition agree_off (keys : list string) (m m' : gmap string value) : Prop :=
  ∀ k, k ∉ keys → m' !! k = m !! k.

(** An entry that [torch.stack] accepts whenever it is present. *)
Definition stackable_if_present (inputs : gmap string value) (key : string)
  : Prop :=
  ∀ v, inputs !! key = Some v → ∃ t, torch_stack v = Ok t.

(** An entry before and after [forward]: absent and still absent, or
    present and replaced by its stacked tensor. *)
Definition stacked_entry (before after : option value) : Prop :=
  match before with
  | None => after = None
  | Some v => ∃ t, torch_stack v = Ok t ∧ after = Some (VTensor t)
  end.

(** Sample batches: one instance image, and the same with one class
    image kept under 'result_class_image'. *)
Definition sample_tensor (a b : Z) : tensor := Tensor [2%nat] [a; b].

Definition sample_inputs : gmap string value :=
  {[ "img" := VList [VTensor (sample_tensor 1 2)];
     "text" := VList [VStr "a photo of sks dog"];
     "resolution" := VList [VTensor (sample_tensor 512 512)] ]}.

Definition sample_data : gmap string value :=
  {[ "inputs" := VDict sample_inputs; "data_samples" := VNone ]}.

Definition sample_class_image : gmap string value :=
  {[ "img" := VList [VTensor (sample_tensor 3 4)];
     "text" := VList [VStr "a photo of dog"];
     "resolution" := VList [VTensor (sample_tensor 256 256)] ]}.

Definition sample_inputs_dreambooth : gmap string value :=
  <["result_class_image" := VDict sample_class_image]> sample_inputs.

Definition sample_data_dreambooth : gmap string value :=
  {[ "inputs" := VDict sample_inputs_dreambooth; "data_samples" := VNone ]}.

(** The dataset files read as having exactly the eight steps. *)
Definition every_dataset_has_eight_steps : Prop :=
  Forall (fun f : file =>
            ∃ p, assoc "train_pipeline" f = Some p ∧ pipeline_is eight_steps p)
         dataset_base_configs.

End Statements.

(** ** More vocabulary: boxes inside the image, joined lists *)

Module BoxStatements.
Import Loading PixArt Statements.

(** A box that lies inside the image. *)
Definition inside_image (img_h img_w top left h w : Z) : Prop :=
  0 <= top ∧ 0 <= left ∧ top + h <= img_h ∧ left + w <= img_w.

(** The margin and shape bounds of a box. *)
Definition within_margins
  (img_h img_w mh mw dh dw gh gw top left h w : Z) : Prop :=
  gh <= top ∧ gw <= left
  ∧ top + h <= img_h - gh ∧ left + w <= img_w - gw
  ∧ mh - dh / 2 <= h <= mh ∧ mw - dw / 2 <= w <= mw.

(** [random_bbox] read as returning, for every input that passes its
    checks, a box inside the image that keeps the margins. *)
Definition random_bbox_always_inside_image : Prop :=
  ∀ img_h img_w s d m mh mw dh dw gh gw (g : rng) top left h w g',
    int_arg s mh mw → int_arg d dh dw → int_arg m gh gw →
    validation_fails img_h img_w mh mw dh dw gh gw = false →
    random_bbox (img_h, img_w) s d m g = Ok (top, left, h, w, g') →
    inside_image img_h img_w top left h w
    ∧ within_margins img_h img_w mh mw dh dw gh gw top left h w.

(** An optional pair of lists whose join [torch.stack] accepts. *)
Definition stackable_joined (xs cs : option (list value)) : Prop :=
  match xs, cs with
  | Some x, Some c => ∃ t, torch_stack (VList (x ++ c)) = Ok t
  | _, _ => True
  end.

End BoxStatements.

(** ** Samples for the further properties *)

Module Samples.
Import Loading.

(** A results dict with a 12x12 image, and a 'bbox' loader for it. *)
Definition sample_results : gmap string value :=
  {[ "img" := VImage 12 12; "text" := VStr "a dog" ]}.

Definition sample_load_mask : LoadMask :=
  {| mask_mode := "bbox";
     mask_config := {[ "max_bbox_shape" := VInt 6;
                       "max_bbox_delta" := VInt 4;
                       "min_margin" := VInt 2 ]} |}.

(** Generators that are never reached in mode 'bbox'. *)
Definition no_generator : Z * Z -> gmap string value -> M ndarray3 :=
  fun _ _ => raise RuntimeError.

End Samples.

(** ** Properties of [random_bbox] *)

Module RandomBBox.
Import Loading Statements BoxStatements.

Lemma randint_guard low high :
  (low <? int64_min) || (high >? int64_max + 1) || (high <=? low) = false
  ↔ int64_min <= low ∧ high <= int64_max + 1 ∧ low < high.
Proof.
  rewrite !orb_false_iff, Z.gtb_ltb, !Z.ltb_ge, Z.leb_gt. lia.
Qed.

Lemma randint_Ok low high g x g' :
  randint low high g = Ok (x, g') →
  low <= x < high ∧ g' = rng_next g.
Proof.
  unfold randint.
  destruct (_ || _) eqn:Hguard; [done |].
  apply randint_guard in Hguard as (_ & _ & Hlt).
  intros [= <- <-]. split; [| done].
  pose proof (Z.mod_pos_bound (g 0%nat) (high - low)). lia.
Qed.

Lemma randint_Raise low high g e :
  randint low high g = Raise e → e = ValueError.
Proof. unfold randint. destruct (_ || _); congruence. Qed.

Lemma randint_empty low high g :
  high <= low → randint low high g = Raise ValueError.
Proof.
  intros H. unfold randint.
  destruct (_ || _) eqn:Hguard; [done |].
  apply randint_guard in Hguard. lia.
Qed.

Lemma randint_returns low high g :
  int64_min <= low → high <= int64_max + 1 → low < high →
  ∃ x, randint low high g = Ok (x, rng_next g) ∧ low <= x < high.
Proof.
  intros Hlo Hhi H. unfold randint.
  rewrite (proj2 (randint_guard low high)) by done.
  eexists. split; [done |].
  pose proof (Z.mod_pos_bound (g 0%nat) (high - low)). lia.
Qed.

(** Every value of the interval is the outcome of some draw. *)
Lemma randint_covers low high x g :
  int64_min <= low → high <= int64_max + 1 → low <= x < high →
  randint low high (fun n => match n with O => x - low | S n => g n end)
  = Ok (x, g).
Proof.
  intros Hlo Hhi H. unfold randint.
  rewrite (proj2 (randint_guard low high)) by (repeat split; lia).
  rewrite Z.mod_small by lia. f_equal. f_equal. lia.
Qed.

Lemma int_arg_unpack v a b :
  int_arg v a b →
  is_tuple_of_int (to_tuple v) = true ∧ unpack2 (to_tuple v) = Ok (a, b).
Proof. by intros [[-> ->] | ->]. Qed.

Lemma random_bbox_unpacked img_h img_w s d m mh mw dh dw gh gw g :
  is_tuple_of_int (to_tuple s) = true → unpack2 (to_tuple s) = Ok (mh, mw) →
  is_tuple_of_int (to_tuple d) = true → unpack2 (to_tuple d) = Ok (dh, dw) →
  is_tuple_of_int (to_tuple m) = true → unpack2 (to_tuple m) = Ok (gh, gw) →
  random_bbox (img_h, img_w) s d m g =
    if validation_fails img_h img_w mh mw dh dw gh gw then Raise ValueError
    else draw_bbox img_h img_w mh mw dh dw gh gw g.
Proof.
  intros Hs1 Hs2 Hd1 Hd2 Hm1 Hm2. unfold random_bbox, validation_fails.
  rewrite Hs1, Hd1, Hm1. simpl negb. cbv iota.
  unfold mbind at 1, M_bind at 1. rewrite Hs2. simpl.
  unfold mbind at 1, M_bind at 1. rewrite Hd2. simpl.
  unfold mbind at 1, M_bind at 1. rewrite Hm2. simpl.
  destruct (mask_exceeds_image _ _ _ _); [done |].
  destruct (delta_exceeds_mask _ _ _ _); [done |].
  destruct (margin_unsatisfiable _ _ _ _ _ _); done.
Qed.

Lemma draw_bbox_Ok img_h img_w mh mw dh dw gh gw g top left h w g' :
  draw_bbox img_h img_w mh mw dh dw gh gw g = Ok (top, left, h, w, g') →
  ∃ top0 left0 dt dl,
    gh <= top0 < img_h - gh - mh ∧ gw <= left0 < img_w - gw - mw
    ∧ 0 <= dt <= dh / 2 ∧ 0 <= dl <= dw / 2
    ∧ top = top0 + dt ∧ left = left0 + dl ∧ h = mh - dt ∧ w = mw - dl.
Proof.
  unfold draw_bbox.
  unfold mbind at 1, M_bind at 1.
  destruct (randint gh _ g) as [[top0 g1] |] eqn:E1; [| done].
  unfold mbind at 1, M_bind at 1.
  destruct (randint gw _ g1) as [[left0 g2] |] eqn:E2; [| done].
  unfold mbind at 1, M_bind at 1.
  destruct (randint 0 _ g2) as [[dt g3] |] eqn:E3; [| done].
  unfold mbind at 1, M_bind at 1.
  destruct (randint 0 _ g3) as [[dl g4] |] eqn:E4; [| done].
  intros [= <- <- <- <- <-].
  apply randint_Ok in E1 as [? _], E2 as [? _], E3 as [? _], E4 as [? _].
  exists top0, left0, dt, dl. repeat split; lia.
Qed.

(** Bounds that keep the four draws of [random_bbox] within [int64]. *)
Lemma draw_bbox_returns img_h img_w mh mw dh dw gh gw g :
  gh < img_h - gh - mh → gw < img_w - gw - mw → 0 <= dh → 0 <= dw →
  int64_min <= gh → int64_min <= gw →
  img_h - gh - mh <= int64_max + 1 → img_w - gw - mw <= int64_max + 1 →
  dh / 2 <= int64_max → dw / 2 <= int64_max →
  ∃ b, draw_bbox img_h img_w mh mw dh dw gh gw g
       = Ok (b, rng_next (rng_next (rng_next (rng_next g)))).
Proof.
  intros H1 H2 H3 H4 B1 B2 B3 B4 B5 B6. unfold draw_bbox.
  destruct (randint_returns gh (img_h - gh - mh) g B1 B3 H1) as (top0 & E1 & _).
  unfold mbind at 1, M_bind at 1. rewrite E1.
  destruct (randint_returns gw (img_w - gw - mw) (rng_next g) B2 B4 H2)
    as (left0 & E2 & _).
  unfold mbind at 1, M_bind at 1. rewrite E2.
  assert (0 < dh / 2 + 1) as H5 by (pose proof (Z.div_pos dh 2); lia).
  assert (0 < dw / 2 + 1) as H6 by (pose proof (Z.div_pos dw 2); lia).
  assert (int64_min <= 0) as B0 by (unfold int64_min; lia).
  destruct (randint_returns 0 (dh / 2 + 1) (rng_next (rng_next g)) B0
              ltac:(lia) H5) as (dt & E3 & _).
  unfold mbind at 1, M_bind at 1. rewrite E3.
  destruct (randint_returns 0 (dw / 2 + 1) (rng_next (rng_next (rng_next g)))
              B0 ltac:(lia) H6) as (dl & E4 & _).
  unfold mbind at 1, M_bind at 1. rewrite E4.
  by eexists.
Qed.

Lemma draw_bbox_raises img_h img_w mh mw dh dw gh gw g :
  img_h - gh - mh <= gh ∨ img_w - gw - mw <= gw ∨ dh < 0 ∨ dw < 0 →
  draw_bbox img_h img_w mh mw dh dw gh gw g = Raise ValueError.
Proof.
  intros H. unfold draw_bbox.
  unfold mbind at 1, M_bind at 1.
  destruct (randint gh _ g) as [[top0 g1] |] eqn:E1; cycle 1.
  { by rewrite (randint_Raise _ _ _ _ E1). }
  apply randint_Ok in E1 as [? _].
  unfold mbind at 1, M_bind at 1.
  destruct (randint gw _ g1) as [[left0 g2] |] eqn:E2; cycle 1.
  { by rewrite (randint_Raise _ _ _ _ E2). }
  apply randint_Ok in E2 as [? _].
  unfold mbind at 1, M_bind at 1.
  destruct (randint 0 _ g2) as [[dt g3] |] eqn:E3; cycle 1.
  { by rewrite (randint_Raise _ _ _ _ E3). }
  apply randint_Ok in E3 as [? _].
  unfold mbind at 1, M_bind at 1.
  destruct (randint 0 _ g3) as [[dl g4] |] eqn:E4; cycle 1.
  { by rewrite (randint_Raise _ _ _ _ E4). }
  apply randint_Ok in E4 as [? _].
  exfalso.
  assert (dh < 0 → dh / 2 < 0) by (intros; apply Z.div_lt_upper_bound; lia).
  assert (dw < 0 → dw / 2 < 0) by (intros; apply Z.div_lt_upper_bound; lia).
  lia.
Qed.

(** What a returning call of [random_bbox] went through. *)
Lemma random_bbox_Ok_inv img_h img_w s d m g top left h w g' :
  random_bbox (img_h, img_w) s d m g = Ok (top, left, h, w, g') →
  ∃ mh mw dh dw gh gw,
    unpack2 (to_tuple s) = Ok (mh, mw)
    ∧ unpack2 (to_tuple d) = Ok (dh, dw)
    ∧ unpack2 (to_tuple m) = Ok (gh, gw)
    ∧ validation_fails img_h img_w mh mw dh dw gh gw = false
    ∧ draw_bbox img_h img_w mh mw dh dw gh gw g = Ok (top, left, h, w, g').
Proof.
  intros H.
  destruct (is_tuple_of_int (to_tuple s)) eqn:Hs1;
    [| by unfold random_bbox in H; rewrite Hs1 in H].
  destruct (is_tuple_of_int (to_tuple d)) eqn:Hd1;
    [| by unfold random_bbox in H; rewrite Hs1, Hd1 in H].
  destruct (is_tuple_of_int (to_tuple m)) eqn:Hm1;
    [| by unfold random_bbox in H; rewrite Hs1, Hd1, Hm1 in H].
  destruct (unpack2 (to_tuple s)) as [[mh mw] |] eqn:Hs2; cycle 1.
  { unfold random_bbox in H. rewrite Hs1, Hd1, Hm1 in H.
    unfold mbind at 1, M_bind at 1 in H. by rewrite Hs2 in H. }
  destruct (unpack2 (to_tuple d)) as [[dh dw] |] eqn:Hd2; cycle 1.
  { unfold random_bbox in H. rewrite Hs1, Hd1, Hm1 in H.
    unfold mbind at 1, M_bind at 1 in H. rewrite Hs2 in H. simpl in H.
    unfold mbind at 1, M_bind at 1 in H. by rewrite Hd2 in H. }
  destruct (unpack2 (to_tuple m)) as [[gh gw] |] eqn:Hm2; cycle 1.
  { unfold random_bbox in H. rewrite Hs1, Hd1, Hm1 in H.
    unfold mbind at 1, M_bind at 1 in H. rewrite Hs2 in H. simpl in H.
    unfold mbind at 1, M_bind at 1 in H. rewrite Hd2 in H. simpl in H.
    unfold mbind at 1, M_bind at 1 in H. by rewrite Hm2 in H. }
  rewrite (random_bbox_unpacked _ _ _ _ _ mh mw dh dw gh gw) in H by done.
  exists mh, mw, dh, dw, gh, gw.
  destruct (validation_fails _ _ _ _ _ _ _ _); [done |]. done.
Qed.

Lemma validation_passes img_h img_w mh mw dh dw gh gw :
  validation_fails img_h img_w mh mw dh dw gh gw = false ↔
  (mh <= img_h ∧ mw <= img_w)
  ∧ (dh / 2 * 2 < mh ∧ dw / 2 * 2 < mw)
  ∧ (2 * gh <= img_h - mh ∧ 2 * gw <= img_w - mw).
Proof.
  unfold validation_fails, mask_exceeds_image, delta_exceeds_mask,
    margin_unsatisfiable.
  rewrite !orb_false_iff, !Z.gtb_ltb, !Z.geb_leb, !Z.ltb_ge, !Z.leb_gt. lia.
Qed.

(** One direction of the validation claim holds: a failed check is a
    [ValueError]. *)
Lemma random_bbox_invalid_raises img_h img_w s d m mh mw dh dw gh gw g :
  int_arg s mh mw → int_arg d dh dw → int_arg m gh gw →
  validation_fails img_h img_w mh mw dh dw gh gw = true →
  random_bbox (img_h, img_w) s d m g = Raise ValueError.
Proof.
  intros [Hs1 Hs2]%int_arg_unpack [Hd1 Hd2]%int_arg_unpack
    [Hm1 Hm2]%int_arg_unpack Hv.
  rewrite (random_bbox_unpacked _ _ _ _ _ mh mw dh dw gh gw) by done.
  by rewrite Hv.
Qed.

(** The outcome of [random_bbox] on integer arguments: it raises
    [ValueError] when a check fails and also when a draw has an empty
    range; it returns when neither happens, the margins are non-negative
    and the image shape fits [int64]. *)
Lemma random_bbox_outcome img_h img_w s d m mh mw dh dw gh gw g :
  int_arg s mh mw → int_arg d dh dw → int_arg m gh gw →
  (validation_fails img_h img_w mh mw dh dw gh gw = true
   ∨ img_h - mh <= 2 * gh ∨ img_w - mw <= 2 * gw ∨ dh < 0 ∨ dw < 0 →
   random_bbox (img_h, img_w) s d m g = Raise ValueError)
  ∧ (validation_fails img_h img_w mh mw dh dw gh gw = false →
     2 * gh < img_h - mh → 2 * gw < img_w - mw → 0 <= dh → 0 <= dw →
     0 <= gh → 0 <= gw → img_h <= int64_max → img_w <= int64_max →
     ∃ b, random_bbox (img_h, img_w) s d m g
          = Ok (b, rng_next (rng_next (rng_next (rng_next g))))).
Proof.
  intros [Hs1 Hs2]%int_arg_unpack [Hd1 Hd2]%int_arg_unpack
    [Hm1 Hm2]%int_arg_unpack.
  rewrite (random_bbox_unpacked _ _ _ _ _ mh mw dh dw gh gw) by done.
  split.
  - intros H. destruct (validation_fails _ _ _ _ _ _ _ _); [done |].
    apply draw_bbox_raises. destruct H as [H | H]; [done | lia].
  - intros Hv H1 H2 H3 H4 H5 H6 H7 H8. rewrite Hv.
    apply validation_passes in Hv.
    pose proof (Z.div_pos dh 2 H3 ltac:(lia)).
    pose proof (Z.div_pos dw 2 H4 ltac:(lia)).
    apply draw_bbox_returns; unfold int64_min; lia.
Qed.

(** C3: the three checks do not decide the raising of [ValueError].  For
    a 100x100 image, a 60x60 box, delta 40 and margin 20 every check
    passes (the margin fits exactly), and still every call raises
    [ValueError], from the draw of [top] over the empty range
    [[20, 20)]. *)
Theorem random_bbox_exact_margin_raises (g : rng) :
  validation_fails 100 100 60 60 40 40 20 20 = false
  ∧ random_bbox (100, 100) (VInt 60) (VInt 40) (VInt 20) g = Raise ValueError.
Proof.
  split; [reflexivity |].
  apply (random_bbox_outcome 100 100 _ _ _ 60 60 40 40 20 20);
    [by left | by left | by left |]. lia.
Qed.

(** C4 as stated fails: a negative margin passes every check, and on a
    100x100 image a 30x30 box with margin -5 is returned at (-5, -5),
    outside the image. *)
Lemma random_bbox_negative_margin_leaves_image :
  ¬ random_bbox_always_inside_image.
Proof.
  intros H.
  destruct (H 100 100 (VInt 30) (VInt 10) (VInt (-5)) 30 30 10 10 (-5) (-5)
              (fun _ => 0) (-5) (-5) 30 30 (fun _ => 0))
    as [(Htop & _) _];
    [by left | by left | by left | reflexivity | reflexivity |].
  lia.
Qed.

(** C4, amended: whenever [random_bbox] returns, whatever was drawn, the
    bbox keeps the requested margin from every edge of the image and its
    shape lies between the maximal shape less half the delta and the
    maximal shape; with non-negative margins it lies inside the
    image. *)
Theorem random_bbox_inside_margins
  img_h img_w s d m mh mw dh dw gh gw g top left h w g' :
  int_arg s mh mw → int_arg d dh dw → int_arg m gh gw →
  random_bbox (img_h, img_w) s d m g = Ok (top, left, h, w, g') →
  within_margins img_h img_w mh mw dh dw gh gw top left h w
  ∧ (0 <= gh → 0 <= gw → inside_image img_h img_w top left h w).
Proof.
  intros [Hs1 Hs2]%int_arg_unpack [Hd1 Hd2]%int_arg_unpack
    [Hm1 Hm2]%int_arg_unpack H.
  apply random_bbox_Ok_inv in H
    as (mh' & mw' & dh' & dw' & gh' & gw' & Es & Ed & Em & _ & H).
  rewrite Hs2 in Es. rewrite Hd2 in Ed. rewrite Hm2 in Em. simplify_eq.
  apply draw_bbox_Ok in H as (top0 & left0 & dt & dl & ? & ? & ? & ? & Hr).
  destruct Hr as (-> & -> & -> & ->).
  unfold within_margins, inside_image. split; [lia |]. intros ? ?. lia.
Qed.

Lemma random_bbox_inside_margins_witness :
  within_margins 256 256 128 128 40 40 20 20 34 34 121 121
  ∧ inside_image 256 256 34 34 121 121.
Proof.
  destruct (random_bbox_inside_margins 256 256 (VInt 128) (VInt 40) (VInt 20)
              128 128 40 40 20 20 (fun _ => 7) 34 34 121 121 (fun _ => 7))
    as [Hmargins Hinside];
    [by left | by left | by left | reflexivity |].
  split; [exact Hmargins | apply Hinside; lia].
Defined.

(** A box that passes the checks with room to spare is always produced,
    so the bounds above are not vacuous. *)
Lemma random_bbox_returns img_h img_w s d m mh mw dh dw gh gw g :
  int_arg s mh mw → int_arg d dh dw → int_arg m gh gw →
  mh <= img_h → mw <= img_w → 0 <= dh → 0 <= dw →
  dh / 2 * 2 < mh → dw / 2 * 2 < mw →
  2 * gh < img_h - mh → 2 * gw < img_w - mw →
  0 <= gh → 0 <= gw → img_h <= int64_max → img_w <= int64_max →
  ∃ b g', random_bbox (img_h, img_w) s d m g = Ok (b, g').
Proof.
  intros Hs Hd Hm ? ? ? ? ? ? ? ? ? ? ? ?.
  destruct (random_bbox_outcome img_h img_w s d m mh mw dh dw gh gw g Hs Hd Hm)
    as [_ Hret].
  destruct Hret as [b Hb]; [| done.. | by eexists _, _].
  apply validation_passes. lia.
Qed.

End RandomBBox.

(** ** Properties of [bbox2mask] *)

Module BBox2Mask.
Import Loading Statements.

Lemma slice_bound_nonneg x n : 0 <= x → slice_bound x n = Z.min x n.
Proof. intros H. unfold slice_bound. by destruct (Z.ltb_spec x 0); [lia |]. Qed.

(** A slice assignment on a constant list leaves a band of new values. *)
Lemma assign_slice_replicate {A} (f : A → A) (x : A) (k : nat) (start stop : Z) :
  0 <= start → start <= stop →
  let a := Z.to_nat (Z.min start (Z.of_nat k)) in
  let c := (Z.to_nat (Z.min stop (Z.of_nat k)) - a)%nat in
  assign_slice start stop f (replicate k x)
  = (replicate a x ++ replicate c (f x) ++ replicate (k - (a + c)) x)%list.
Proof.
  intros H0 H1 a c. unfold assign_slice.
  rewrite length_replicate, !slice_bound_nonneg by lia.
  fold a. fold c.
  rewrite take_replicate, !drop_replicate, take_replicate, fmap_replicate.
  f_equal; [f_equal; lia |]. f_equal. f_equal. lia.
Qed.

Lemma lookup_banded {A} (x y : A) (a c k i : nat) :
  (a + c ≤ k)%nat → (i < k)%nat →
  (replicate a x ++ replicate c y ++ replicate (k - (a + c)) x)%list !! i
  = Some (if bool_decide (a ≤ i < a + c)%nat then y else x).
Proof.
  intros Hk Hi.
  destruct (decide (i < a)%nat) as [Ha | Ha].
  { rewrite lookup_app_l by (rewrite length_replicate; lia).
    rewrite lookup_replicate_2 by lia.
    by rewrite bool_decide_eq_false_2 by lia. }
  rewrite lookup_app_r by (rewrite length_replicate; lia).
  rewrite length_replicate.
  destruct (decide (i - a < c)%nat) as [Hc | Hc].
  { rewrite lookup_app_l by (rewrite length_replicate; lia).
    rewrite lookup_replicate_2 by lia.
    by rewrite bool_decide_eq_true_2 by lia. }
  rewrite lookup_app_r by (rewrite length_replicate; lia).
  rewrite length_replicate, lookup_replicate_2 by lia.
  by rewrite bool_decide_eq_false_2 by lia.
Qed.

Lemma sum_replicate (n : nat) (z : Z) :
  foldr Z.add 0 (replicate n z) = Z.of_nat n * z.
Proof. induction n as [| n IH]; [done |]. simpl replicate. simpl foldr. lia. Qed.

Lemma sum_app (l1 l2 : list Z) :
  foldr Z.add 0 (l1 ++ l2) = foldr Z.add 0 l1 + foldr Z.add 0 l2.
Proof. induction l1 as [| z l1 IH]; simpl; lia. Qed.

Lemma sum_banded {A} (wt : A → Z) (x y : A) (a c r : nat) :
  foldr Z.add 0 (wt <$> (replicate a x ++ replicate c y ++ replicate r x)%list)
  = Z.of_nat (a + r) * wt x + Z.of_nat c * wt y.
Proof.
  rewrite !fmap_app, !fmap_replicate, !sum_app, !sum_replicate. lia.
Qed.

Lemma bbox2mask_rows height width top left bh bw :
  0 <= height → 0 <= width → 0 <= top → 0 <= left → 0 <= bh → 0 <= bw →
  let a := Z.to_nat (Z.min top height) in
  let c := (Z.to_nat (Z.min (top + bh) height) - a)%nat in
  let a' := Z.to_nat (Z.min left width) in
  let c' := (Z.to_nat (Z.min (left + bw) width) - a')%nat in
  bbox2mask (height, width) (top, left, bh, bw)
  = Ok (replicate a (blank_row (Z.to_nat width))
        ++ replicate c (box_row (Z.to_nat width) a' c')
        ++ replicate (Z.to_nat height - (a + c)) (blank_row (Z.to_nat width)))%list.
Proof.
  intros Hh Hw Ht Hl Hbh Hbw a c a' c'.
  unfold bbox2mask, np_zeros.
  destruct (Z.ltb_spec height 0); [lia |].
  destruct (Z.ltb_spec width 0); [lia |]. simpl.
  rewrite assign_slice_replicate by lia.
  rewrite assign_slice_replicate by lia.
  rewrite !Z2Nat.id by lia. done.
Qed.

Lemma blank_row_shape width :
  length (blank_row width) = width
  ∧ Forall (fun px : list Z => length px = 1%nat) (blank_row width).
Proof.
  unfold blank_row. rewrite length_replicate. split; [done |].
  by apply Forall_replicate.
Qed.

Lemma box_row_shape width a c :
  (a + c ≤ width)%nat →
  length (box_row width a c) = width
  ∧ Forall (fun px : list Z => length px = 1%nat) (box_row width a c).
Proof.
  intros H. unfold box_row. rewrite !length_app, !length_replicate.
  split; [lia |].
  rewrite !Forall_app. by repeat split; apply Forall_replicate.
Qed.

Lemma blank_row_entry width j :
  (j < width)%nat → blank_row width !! j ≫= (.!! 0%nat) = Some 0.
Proof. intros H. unfold blank_row. by rewrite lookup_replicate_2. Qed.

Lemma box_row_entry width a c j :
  (a + c ≤ width)%nat → (j < width)%nat →
  box_row width a c !! j ≫= (.!! 0%nat)
  = Some (if bool_decide (a ≤ j < a + c)%nat then 1 else 0).
Proof.
  intros Hk Hj. unfold box_row. rewrite lookup_banded by done.
  by destruct (bool_decide _).
Qed.

Lemma blank_row_sum width :
  foldr Z.add 0 (foldr Z.add 0 <$> blank_row width) = 0.
Proof. unfold blank_row. rewrite fmap_replicate, sum_replicate. simpl. lia. Qed.

Lemma box_row_sum width a c :
  foldr Z.add 0 (foldr Z.add 0 <$> box_row width a c) = Z.of_nat c.
Proof. unfold box_row. rewrite sum_banded. simpl. lia. Qed.

(** C5: for a non-negative image shape and a bbox with non-negative
    components, [bbox2mask] returns an array of shape (height, width, 1)
    whose entry at pixel (i, j) is 1 exactly when the pixel lies in the
    bbox (top <= i < top + bh and left <= j < left + bw) and 0 otherwise;
    the sum of all entries is the area of the bbox clipped to the
    image. *)
Theorem bbox2mask_marks_clipped_bbox (height width top left bh bw : Z) :
  0 <= height → 0 <= width → 0 <= top → 0 <= left → 0 <= bh → 0 <= bw →
  ∃ m,
    bbox2mask (height, width) (top, left, bh, bw) = Ok m
    ∧ has_shape m (Z.to_nat height) (Z.to_nat width) 1
    ∧ (∀ i j, 0 <= i < height → 0 <= j < width →
         entry m (Z.to_nat i) (Z.to_nat j) 0
         = Some (if in_bbox top left bh bw i j then 1 else 0))
    ∧ np_sum m = clipped_area height width top left bh bw.
Proof.
  intros Hh Hw Ht Hl Hbh Hbw.
  rewrite bbox2mask_rows by done.
  set (a := Z.to_nat (Z.min top height)).
  set (c := (Z.to_nat (Z.min (top + bh) height) - a)%nat).
  set (a' := Z.to_nat (Z.min left width)).
  set (c' := (Z.to_nat (Z.min (left + bw) width) - a')%nat).
  assert (Z.of_nat a = Z.min top height) as Ha by lia.
  assert (Z.of_nat (a + c) = Z.min (top + bh) height) as Hc by lia.
  assert (Z.of_nat a' = Z.min left width) as Ha' by lia.
  assert (Z.of_nat (a' + c') = Z.min (left + bw) width) as Hc' by lia.
  clearbody a c a' c'.
  assert (a + c ≤ Z.to_nat height)%nat as Hac by lia.
  assert (a' + c' ≤ Z.to_nat width)%nat as Hac' by lia.
  eexists. split; [done |]. split; [| split].
  - split.
    + rewrite !length_app, !length_replicate. lia.
    + rewrite !Forall_app.
      repeat split; apply Forall_replicate;
        (apply blank_row_shape || by apply box_row_shape).
  - intros i j Hi Hj. unfold entry.
    rewrite lookup_banded by lia. simpl.
    unfold in_bbox.
    destruct (bool_decide (a ≤ Z.to_nat i < a + c)%nat) eqn:Hrow.
    + rewrite box_row_entry by lia.
      apply bool_decide_eq_true in Hrow.
      destruct (bool_decide (a' ≤ Z.to_nat j < a' + c')%nat) eqn:Hcol.
      * apply bool_decide_eq_true in Hcol.
        rewrite bool_decide_eq_true_2; [reflexivity | lia].
      * apply bool_decide_eq_false in Hcol.
        rewrite bool_decide_eq_false_2; [reflexivity | lia].
    + rewrite blank_row_entry by lia.
      apply bool_decide_eq_false in Hrow.
      rewrite bool_decide_eq_false_2; [reflexivity | lia].
  - unfold np_sum, clipped_area.
    rewrite (sum_banded (fun row => foldr Z.add 0 (foldr Z.add 0 <$> row))).
    rewrite blank_row_sum, box_row_sum. lia.
Qed.

Lemma bbox2mask_marks_clipped_bbox_witness :
  ∃ m,
    bbox2mask (3, 4) (1, 2, 5, 1) = Ok m
    ∧ has_shape m 3 4 1
    ∧ (∀ i j, 0 <= i < 3 → 0 <= j < 4 →
         entry m (Z.to_nat i) (Z.to_nat j) 0
         = Some (if in_bbox 1 2 5 1 i j then 1 else 0))
    ∧ np_sum m = 2.
Proof. apply (bbox2mask_marks_clipped_bbox 3 4 1 2 5 1); lia. Defined.

(** Outside the domain of the claim: a negative image dimension is
    refused by [np.zeros]. *)
Lemma bbox2mask_negative_shape height width bbox :
  height < 0 ∨ width < 0 → bbox2mask (height, width) bbox = Raise ValueError.
Proof.
  intros H. destruct bbox as [[[b0 b1] b2] b3]. unfold bbox2mask, np_zeros.
  destruct (Z.ltb_spec height 0); [done |].
  destruct (Z.ltb_spec width 0); [done | lia].
Qed.

End BBox2Mask.

(** ** Properties of [LoadMask.transform] *)

Module LoadMaskTransform.
Import Loading Statements RandomBBox.

Lemma random_bbox_kwargs_Ok_inv img_shape kwargs g b g' :
  random_bbox_kwargs img_shape kwargs g = Ok (b, g') →
  ∃ s d m, random_bbox img_shape s d m g = Ok (b, g').
Proof.
  unfold random_bbox_kwargs.
  destruct (negb _); [done |].
  destruct (kwargs !! "max_bbox_shape") as [s |]; [| done].
  intros H. by eexists _, _, _.
Qed.

(** A returned bbox belongs to an image for which [bbox2mask] has room. *)
Lemma random_bbox_Ok_image img_h img_w s d m g b g' :
  random_bbox (img_h, img_w) s d m g = Ok (b, g') → 0 < img_h ∧ 0 < img_w.
Proof.
  destruct b as [[[top left] h] w]. intros H.
  apply random_bbox_Ok_inv in H
    as (mh & mw & dh & dw & gh & gw & _ & _ & _ & Hv & H).
  apply validation_passes in Hv.
  apply draw_bbox_Ok in H as (top0 & left0 & dt & dl & ? & ? & ? & ? & _).
  lia.
Qed.

Lemma bbox2mask_returns height width bbox :
  0 <= height → 0 <= width → ∃ m, bbox2mask (height, width) bbox = Ok m.
Proof.
  intros Hh Hw. destruct bbox as [[[b0 b1] b2] b3]. unfold bbox2mask, np_zeros.
  destruct (Z.ltb_spec height 0); [lia |].
  destruct (Z.ltb_spec width 0); [lia |]. by eexists.
Qed.

(** Settle the mode comparisons of [transform] from what is known of
    the mode. *)
Ltac pick_mode :=
  repeat match goal with
    | |- context [String.eqb ?a ?b] =>
        destruct (String.eqb_spec a b); try congruence
    end.

Section Dispatch.
Variable irregular ff : Z * Z → gmap string value → M ndarray3.
Variable self : LoadMask.
Variable results : gmap string value.
Variable height width : Z.
Hypothesis Himg : results !! "img" = Some (VImage height width).

Lemma transform_with_image g :
  transform irregular ff self results g =
    (if String.eqb (mask_mode self) "bbox" then
       mask_bbox ← random_bbox_kwargs (height, width) (mask_config self);
       mask ← lift (bbox2mask (height, width) mask_bbox);
       mret (<["mask" := VArray mask]>
               (<["mask_bbox" := bbox_value mask_bbox]> results))
     else if String.eqb (mask_mode self) "irregular" then
       mask ← irregular (height, width) (mask_config self);
       mret (<["mask" := VArray mask]> results)
     else if String.eqb (mask_mode self) "ff" then
       mask ← ff (height, width) (mask_config self);
       mret (<["mask" := VArray mask]> results)
     else raise NotImplementedError) g.
Proof.
  unfold transform, getitem. rewrite Himg.
  unfold mbind at 1, M_bind at 1. simpl.
  unfold mbind at 1, M_bind at 1. simpl. done.
Qed.

Lemma transform_bbox_returns g bbox g' :
  mask_mode self = "bbox" →
  random_bbox_kwargs (height, width) (mask_config self) g = Ok (bbox, g') →
  ∃ m, bbox2mask (height, width) bbox = Ok m
       ∧ transform irregular ff self results g
         = Ok (<["mask" := VArray m]>
                 (<["mask_bbox" := bbox_value bbox]> results), g').
Proof.
  intros Hmode Hbox. rewrite transform_with_image. pick_mode.
  unfold mbind at 1, M_bind at 1. rewrite Hbox.
  destruct (random_bbox_kwargs_Ok_inv _ _ _ _ _ Hbox) as (s & d & m0 & Hr).
  apply random_bbox_Ok_image in Hr as [Hh Hw].
  destruct (bbox2mask_returns height width bbox) as [m Hm]; [lia | lia |].
  exists m. split; [done |].
  unfold mbind, M_bind, lift. by rewrite Hm.
Qed.

Lemma transform_bbox_raises g e :
  mask_mode self = "bbox" →
  random_bbox_kwargs (height, width) (mask_config self) g = Raise e →
  transform irregular ff self results g = Raise e.
Proof.
  intros Hmode Hbox. rewrite transform_with_image. pick_mode.
  unfold mbind at 1, M_bind at 1. by rewrite Hbox.
Qed.

Lemma transform_irregular g :
  mask_mode self = "irregular" →
  transform irregular ff self results g =
    match irregular (height, width) (mask_config self) g with
    | Ok (m, g') => Ok (<["mask" := VArray m]> results, g')
    | Raise e => Raise e
    end.
Proof.
  intros Hmode. rewrite transform_with_image. pick_mode.
  unfold mbind, M_bind. by destruct (irregular _ _ _) as [[m g'] |].
Qed.

Lemma transform_ff g :
  mask_mode self = "ff" →
  transform irregular ff self results g =
    match ff (height, width) (mask_config self) g with
    | Ok (m, g') => Ok (<["mask" := VArray m]> results, g')
    | Raise e => Raise e
    end.
Proof.
  intros Hmode. rewrite transform_with_image. pick_mode.
  unfold mbind, M_bind. by destruct (ff _ _ _) as [[m g'] |].
Qed.

Lemma transform_unsupported g :
  mask_mode self ∉ supported_modes →
  transform irregular ff self results g = Raise NotImplementedError.
Proof.
  intros Hmode. rewrite transform_with_image.
  assert (∀ mode, mode ∈ supported_modes → mask_mode self ≠ mode) as Hne
    by (intros mode Hin E; apply Hmode; by rewrite E).
  pose proof (Hne "bbox" ltac:(repeat constructor)).
  pose proof (Hne "irregular" ltac:(repeat constructor)).
  pose proof (Hne "ff" ltac:(repeat constructor)).
  by pick_mode.
Qed.
End Dispatch.

(** C6, amended: on a results dict with an image, [transform] adds
    'mask' and 'mask_bbox' in mode 'bbox' and 'mask' alone in modes
    'irregular' and 'ff', each time the selected generator returns a
    mask; an exception of the generator is passed on; every other mode,
    'set' among them, raises [NotImplementedError]. *)
Theorem transform_dispatch
  (irregular ff : Z * Z → gmap string value → M ndarray3)
  (self : LoadMask) (results : gmap string value) (height width : Z) (g : rng) :
  results !! "img" = Some (VImage height width) →
  (mask_mode self = "bbox" →
     (∀ bbox g',
        random_bbox_kwargs (height, width) (mask_config self) g = Ok (bbox, g') →
        ∃ m, bbox2mask (height, width) bbox = Ok m
             ∧ transform irregular ff self results g
               = Ok (<["mask" := VArray m]>
                       (<["mask_bbox" := bbox_value bbox]> results), g'))
     ∧ (∀ e,
          random_bbox_kwargs (height, width) (mask_config self) g = Raise e →
          transform irregular ff self results g = Raise e))
  ∧ (mask_mode self = "irregular" →
       (∀ m g',
          irregular (height, width) (mask_config self) g = Ok (m, g') →
          transform irregular ff self results g
          = Ok (<["mask" := VArray m]> results, g'))
       ∧ (∀ e,
            irregular (height, width) (mask_config self) g = Raise e →
            transform irregular ff self results g = Raise e))
  ∧ (mask_mode self = "ff" →
       (∀ m g',
          ff (height, width) (mask_config self) g = Ok (m, g') →
          transform irregular ff self results g
          = Ok (<["mask" := VArray m]> results, g'))
       ∧ (∀ e,
            ff (height, width) (mask_config self) g = Raise e →
            transform irregular ff self results g = Raise e))
  ∧ (mask_mode self ∉ supported_modes →
       transform irregular ff self results g = Raise NotImplementedError)
  ∧ (mask_mode self = "set" →
       transform irregular ff self results g = Raise NotImplementedError).
Proof.
  intros Himg. repeat split.
  - intros bbox g' Hbox. by eapply transform_bbox_returns.
  - intros e Hbox. by eapply transform_bbox_raises.
  - intros m g' Hgen. erewrite transform_irregular by done. by rewrite Hgen.
  - intros e Hgen. erewrite transform_irregular by done. by rewrite Hgen.
  - intros m g' Hgen. erewrite transform_ff by done. by rewrite Hgen.
  - intros e Hgen. erewrite transform_ff by done. by rewrite Hgen.
  - intros Hmode. by eapply transform_unsupported.
  - intros Hmode. eapply transform_unsupported; [done |].
    rewrite Hmode. unfold supported_modes. rewrite !elem_of_cons, elem_of_nil.
    intros [? | [? | [? | []]]]; discriminate.
Qed.

Lemma transform_dispatch_witness :
  transform (fun _ _ => raise RuntimeError) (fun _ _ => raise RuntimeError)
    {| mask_mode := "set"; mask_config := ∅ |}
    {[ "img" := VImage 4 4 ]} (fun _ => 0)
  = Raise NotImplementedError.
Proof.
  destruct (transform_dispatch
              (fun _ _ => raise RuntimeError) (fun _ _ => raise RuntimeError)
              {| mask_mode := "set"; mask_config := ∅ |}
              {[ "img" := VImage 4 4 ]} 4 4 (fun _ => 0))
    as (_ & _ & _ & _ & Hset); [reflexivity |].
  apply Hset. reflexivity.
Defined.

(** C6 as stated fails: in mode 'bbox', with a 128x128 box asked on a
    10x10 image, [transform] raises and adds no mask. *)
Lemma transform_bbox_too_large_raises :
  ¬ transform_always_adds_mask.
Proof.
  intros H.
  destruct (H (fun _ _ => raise RuntimeError) (fun _ _ => raise RuntimeError)
              {| mask_mode := "bbox";
                 mask_config := {[ "max_bbox_shape" := VInt 128 ]} |}
              {[ "img" := VImage 10 10 ]} 10 10 (fun _ => 0))
    as (results' & g' & Hret & _); [reflexivity | |].
  { repeat constructor. }
  vm_compute in Hret. discriminate Hret.
Qed.

End LoadMaskTransform.

(** ** Properties of [PixArtAlphaDataPreprocessor.forward] *)

Module Preprocessor.
Import PixArt Statements BoxStatements.

(** Peel the first call off a sequence that returned. *)
Ltac bind_inv H :=
  let E := fresh "E" in
  match type of H with
  | (?r ≫= _) = Ok _ =>
      destruct r eqn:E; [cbn [mbind result_bind] in H | discriminate H]
  end.

Lemma mapM_as_tensor ts : mapM as_tensor (VTensor <$> ts) = Some ts.
Proof.
  induction ts as [| t ts IH]; [done |].
  rewrite fmap_cons. cbn [mapM]. rewrite IH. done.
Qed.

Lemma mapM_as_tensor_inv l ts : mapM as_tensor l = Some ts → l = VTensor <$> ts.
Proof.
  revert ts. induction l as [| v l IH]; intros ts H.
  - by injection H as <-.
  - cbn [mapM] in H. destruct v; try discriminate H.
    destruct (mapM as_tensor l) as [ts' |]; [| discriminate H].
    injection H as <-. by rewrite (IH ts').
Qed.

Lemma fmap_VTensor_inj (l1 l2 : list tensor) :
  VTensor <$> l1 = VTensor <$> l2 → l1 = l2.
Proof.
  revert l2. induction l1 as [| t l1 IH]; intros [| u l2] H; try done.
  rewrite !fmap_cons in H. injection H as -> H. f_equal. by apply IH.
Qed.

Lemma same_shape_forallb t ts :
  forallb (fun u => bool_decide (shape u = shape t)) ts = true
  ↔ tensors_of_shape (shape t) ts.
Proof.
  unfold tensors_of_shape. induction ts as [| u ts IH]; simpl.
  - split; [constructor | done].
  - rewrite andb_true_iff, IH, Forall_cons, bool_decide_eq_true. done.
Qed.

(** [torch.stack] on a non-empty list of tensors of one shape. *)
Lemma torch_stack_tensors s ts :
  ts ≠ [] → tensors_of_shape s ts →
  torch_stack (VList (VTensor <$> ts))
  = Ok (Tensor (length ts :: s) (concat (elems <$> ts))).
Proof.
  intros Hne Hs. unfold torch_stack. rewrite mapM_as_tensor.
  destruct ts as [| t ts]; [done |].
  apply Forall_cons in Hs as [<- Hs].
  apply same_shape_forallb in Hs. by rewrite Hs.
Qed.

Lemma torch_stack_Ok_inv l b :
  torch_stack (VList l) = Ok b →
  ∃ s ts, l = VTensor <$> ts ∧ ts ≠ [] ∧ tensors_of_shape s ts
          ∧ b = Tensor (length ts :: s) (concat (elems <$> ts)).
Proof.
  unfold torch_stack. destruct (mapM as_tensor l) as [ts |] eqn:E; [| done].
  apply mapM_as_tensor_inv in E as ->.
  destruct ts as [| t ts]; [done |].
  destruct (forallb _ ts) eqn:Hs; [| done].
  apply same_shape_forallb in Hs. intros [= <-].
  exists (shape t), (t :: ts). repeat split; [done |].
  by apply Forall_cons.
Qed.

(** The [k]-th block of a concatenation of blocks of one length. *)
Lemma concat_block {A} (n : nat) (xs : list (list A)) (k : nat) (x : list A) :
  Forall (fun y => length y = n) xs → xs !! k = Some x →
  take n (drop (k * n) (concat xs)) = x.
Proof.
  intros Hn. revert k. induction Hn as [| y ys Hy Hys IH]; intros k Hk; [done |].
  rewrite concat_cons. destruct k as [| k].
  - injection Hk as <-. rewrite Nat.mul_0_l, drop_0.
    by rewrite take_app_length'.
  - rewrite Nat.mul_succ_l, Nat.add_comm, <- drop_drop.
    rewrite drop_app_length' by done. by apply IH.
Qed.

(** The slices of a stacked batch are the stacked tensors, in order. *)
Lemma select_stacked s ts k t :
  Forall tensor_wf ts → tensors_of_shape s ts → ts !! k = Some t →
  select (Tensor (length ts :: s) (concat (elems <$> ts))) k = Some t.
Proof.
  unfold tensors_of_shape. intros Hwf Hs Hk. unfold select. simpl.
  destruct (decide (k < length ts)%nat) as [_ | Hge];
    [| by apply lookup_lt_Some in Hk].
  f_equal.
  assert (shape t = s) as Ht by by eapply (Forall_lookup_1 _ _ _ _ Hs).
  destruct t as [st et]. simpl in Ht. subst st. f_equal.
  apply concat_block.
  - apply Forall_fmap. apply Forall_forall. intros u Hu. simpl.
    rewrite Forall_forall in Hwf, Hs.
    specialize (Hwf u Hu). specialize (Hs u Hu). unfold tensor_wf in Hwf.
    by rewrite <- Hs.
  - by rewrite list_lookup_fmap, Hk.
Qed.

(** *** The steps on the inputs dict *)

Lemma when_present_absent key step inputs :
  inputs !! key = None → when_present key step inputs = Ok inputs.
Proof.
  intros H. unfold when_present, contains. rewrite H.
  by rewrite bool_decide_eq_false_2 by (by intros [? ?]).
Qed.

Lemma when_present_present key step inputs v :
  inputs !! key = Some v → when_present key step inputs = step inputs.
Proof.
  intros H. unfold when_present, contains. rewrite H.
  by rewrite bool_decide_eq_true_2 by by eexists.
Qed.

Lemma append_class_Ok key inputs rci x c :
  inputs !! key = Some (VList x) →
  inputs !! "result_class_image" = Some (VDict rci) →
  rci !! key = Some (VList c) →
  append_class key inputs
  = Ok (<[key := VList (x ++ c)]>
          (<["result_class_image" := VDict (delete key rci)]> inputs)).
Proof.
  intros Hx Hrci Hc. unfold append_class, getitem, dict_pop.
  rewrite Hx, Hrci. simpl. by rewrite Hc.
Qed.

Lemma append_class_inv key inputs inputs' :
  append_class key inputs = Ok inputs' →
  ∃ s rci, inputs' = <[key := s]> (<["result_class_image" := VDict rci]> inputs).
Proof.
  unfold append_class, getitem, dict_pop. intros H.
  destruct (inputs !! key) as [a |]; [| done].
  destruct (inputs !! "result_class_image") as [r |]; [| done].
  simpl in H. destruct (pop_receiver r) as [rci |]; [| done].
  simpl in H. destruct (rci !! key) as [b |]; [| done].
  simpl in H. destruct (add a b) as [s |]; [| done].
  simpl in H. injection H as <-. by eexists _, _.
Qed.

Lemma stack_key_Ok key inputs v t :
  inputs !! key = Some v → torch_stack v = Ok t →
  stack_key key inputs = Ok (<[key := VTensor t]> inputs).
Proof.
  intros Hv Ht. unfold stack_key, getitem. rewrite Hv. simpl. by rewrite Ht.
Qed.

Lemma stack_key_inv key inputs inputs' :
  stack_key key inputs = Ok inputs' →
  ∃ v t, inputs !! key = Some v ∧ torch_stack v = Ok t
         ∧ inputs' = <[key := VTensor t]> inputs.
Proof.
  unfold stack_key, getitem. intros H.
  destruct (inputs !! key) as [v |]; [| done].
  simpl in H. destruct (torch_stack v) as [t |] eqn:Ht; [| done].
  simpl in H. injection H as <-. by exists v, t.
Qed.

(** *** Keys left alone *)

Lemma agree_off_refl keys m : agree_off keys m m.
Proof. by intros k _. Qed.

Lemma agree_off_trans keys m1 m2 m3 :
  agree_off keys m1 m2 → agree_off keys m2 m3 → agree_off keys m1 m3.
Proof. intros H12 H23 k Hk. by rewrite H23, H12. Qed.

Lemma agree_off_insert keys m k v :
  k ∈ keys → agree_off keys m (<[k := v]> m).
Proof.
  intros Hin k' Hk'. apply lookup_insert_ne. by intros ->.
Qed.

Lemma when_present_agree keys key step inputs inputs' :
  (∀ i i', step i = Ok i' → agree_off keys i i') →
  when_present key step inputs = Ok inputs' → agree_off keys inputs inputs'.
Proof.
  intros Hstep. unfold when_present. destruct (contains inputs key).
  - apply Hstep.
  - intros [= <-]. apply agree_off_refl.
Qed.

Lemma append_class_agree key inputs inputs' :
  key ∈ touched_keys →
  append_class key inputs = Ok inputs' → agree_off touched_keys inputs inputs'.
Proof.
  intros Hkey (s & rci & ->)%append_class_inv.
  eapply agree_off_trans; apply agree_off_insert; [| done].
  unfold touched_keys. by repeat constructor.
Qed.

Lemma stack_key_agree key inputs inputs' :
  key ∈ touched_keys →
  stack_key key inputs = Ok inputs' → agree_off touched_keys inputs inputs'.
Proof.
  intros Hkey (v & t & _ & _ & ->)%stack_key_inv. by apply agree_off_insert.
Qed.

Lemma touched_text : "text" ∈ touched_keys.
Proof. unfold touched_keys. by repeat constructor. Qed.
Lemma touched_img : "img" ∈ touched_keys.
Proof. unfold touched_keys. by repeat constructor. Qed.
Lemma touched_resolution : "resolution" ∈ touched_keys.
Proof. unfold touched_keys. by repeat constructor. Qed.
Lemma touched_aspect_ratio : "aspect_ratio" ∈ touched_keys.
Proof. unfold touched_keys. by repeat constructor. Qed.

Lemma append_class_image_agree inputs inputs' :
  append_class_image inputs = Ok inputs' → agree_off touched_keys inputs inputs'.
Proof.
  unfold append_class_image. intros H.
  bind_inv H. bind_inv H. bind_inv H.
  eapply agree_off_trans; [by eapply append_class_agree, E; apply touched_text |].
  eapply agree_off_trans; [by eapply append_class_agree, E0; apply touched_img |].
  eapply agree_off_trans.
  - eapply when_present_agree, E1. intros i i'.
    apply append_class_agree, touched_resolution.
  - eapply when_present_agree, H. intros i i'.
    apply append_class_agree, touched_aspect_ratio.
Qed.

Lemma stack_inputs_agree inputs inputs' :
  stack_inputs inputs = Ok inputs' → agree_off touched_keys inputs inputs'.
Proof.
  unfold stack_inputs. intros H. bind_inv H. bind_inv H.
  eapply agree_off_trans; [by eapply stack_key_agree, E; apply touched_img |].
  eapply agree_off_trans.
  - eapply when_present_agree, E0. intros i i'.
    apply stack_key_agree, touched_resolution.
  - eapply when_present_agree, H. intros i i'.
    apply stack_key_agree, touched_aspect_ratio.
Qed.

(** What a returning [forward_args] went through. *)
Lemma forward_args_inv data data' :
  forward_args data = Ok data' →
  ∃ inputs merged inputs',
    data !! "inputs" = Some (VDict inputs)
    ∧ when_present "result_class_image" append_class_image inputs = Ok merged
    ∧ stack_inputs merged = Ok inputs'
    ∧ data' = <["inputs" := VDict inputs']> data.
Proof.
  unfold forward_args, getitem. intros H.
  destruct (data !! "inputs") as [v |]; [| done].
  destruct v; try done. simpl in H.
  bind_inv H. bind_inv H. injection H as <-. by eexists _, _, _.
Qed.

(** C7: the dict that [forward] hands to the base class's forward
    differs from the input dict only under 'inputs', and there only at
    the keys 'img', 'text', 'resolution', 'aspect_ratio' and
    'result_class_image'; every other key of [data] and of
    [data['inputs']] is passed on unchanged. *)
Theorem forward_frame {R} (base_forward : gmap string value → result R)
  (data data' : gmap string value) (training : bool) :
  forward_args data = Ok data' →
  forward base_forward data training = base_forward data'
  ∧ (∀ k, k ≠ "inputs" → data' !! k = data !! k)
  ∧ ∃ inputs inputs',
      data !! "inputs" = Some (VDict inputs)
      ∧ data' !! "inputs" = Some (VDict inputs')
      ∧ ∀ k, k ∉ touched_keys → inputs' !! k = inputs !! k.
Proof.
  intros H. split; [| split].
  - unfold forward. by rewrite H.
  - apply forward_args_inv in H as (inputs & merged & inputs' & _ & _ & _ & ->).
    intros k Hk. by apply lookup_insert_ne.
  - apply forward_args_inv in H as (inputs & merged & inputs' & Hin & Hm & Hs & ->).
    exists inputs, inputs'. split; [done |]. split; [apply lookup_insert_eq |].
    eapply agree_off_trans; [| by apply stack_inputs_agree].
    eapply when_present_agree, Hm. apply append_class_image_agree.
Qed.

Lemma forward_frame_witness :
  ∃ data',
    forward_args sample_data_dreambooth = Ok data'
    ∧ forward Ok sample_data_dreambooth true = Ok data'
    ∧ (∀ k, k ≠ "inputs" → data' !! k = sample_data_dreambooth !! k)
    ∧ ∃ inputs inputs',
        sample_data_dreambooth !! "inputs" = Some (VDict inputs)
        ∧ data' !! "inputs" = Some (VDict inputs')
        ∧ ∀ k, k ∉ touched_keys → inputs' !! k = inputs !! k.
Proof.
  eexists. split; [reflexivity |].
  apply (forward_frame Ok sample_data_dreambooth _ true). reflexivity.
Defined.

(** *** Stacking without a class image *)

Lemma stack_when_present key inputs :
  stackable_if_present inputs key →
  ∃ inputs',
    when_present key (stack_key key) inputs = Ok inputs'
    ∧ stacked_entry (inputs !! key) (inputs' !! key)
    ∧ ∀ k, k ≠ key → inputs' !! k = inputs !! k.
Proof.
  intros Hst. destruct (inputs !! key) as [v |] eqn:Hv.
  - destruct (Hst v Hv) as [t Ht].
    exists (<[key := VTensor t]> inputs).
    rewrite (when_present_present _ _ _ v Hv), (stack_key_Ok _ _ v t Hv Ht).
    split; [done |]. split.
    + exists t. by rewrite lookup_insert_eq.
    + intros k Hk. by apply lookup_insert_ne.
  - exists inputs. rewrite (when_present_absent _ _ _ Hv).
    split; [done |]. by rewrite Hv.
Qed.

(** C1, amended: when 'result_class_image' is absent, 'img' is a
    non-empty list of tensors of one shape, and 'resolution' and
    'aspect_ratio' are stackable where present, [forward] returns the
    base class's forward of the dict in which 'img' is the batch tensor
    whose first dimension is the length of the list, 'resolution' and
    'aspect_ratio' are stacked exactly when present, and nothing else
    changed. *)
Theorem forward_stacks_without_class_image
  {R} (base_forward : gmap string value → result R)
  (data inputs : gmap string value) (training : bool)
  (ts : list tensor) (s : list nat) :
  data !! "inputs" = Some (VDict inputs) →
  inputs !! "result_class_image" = None →
  inputs !! "img" = Some (VList (VTensor <$> ts)) →
  ts ≠ [] →
  tensors_of_shape s ts →
  stackable_if_present inputs "resolution" →
  stackable_if_present inputs "aspect_ratio" →
  ∃ inputs' b,
    forward base_forward data training
    = base_forward (<["inputs" := VDict inputs']> data)
    ∧ inputs' !! "img" = Some (VTensor b)
    ∧ shape b = length ts :: s
    ∧ elems b = concat (elems <$> ts)
    ∧ stacked_entry (inputs !! "resolution") (inputs' !! "resolution")
    ∧ stacked_entry (inputs !! "aspect_ratio") (inputs' !! "aspect_ratio")
    ∧ ∀ k, k ∉ ["img"; "resolution"; "aspect_ratio"] →
           inputs' !! k = inputs !! k.
Proof.
  intros Hdata Hrci Himg Hne Hs Hres Hasp.
  set (b := Tensor (length ts :: s) (concat (elems <$> ts))).
  set (i1 := <["img" := VTensor b]> inputs).
  assert (stack_key "img" inputs = Ok i1) as H1
    by (eapply stack_key_Ok; [done | by apply torch_stack_tensors]).
  assert (i1 !! "img" = Some (VTensor b)) as Hb by apply lookup_insert_eq.
  assert (∀ k, k ≠ "img" → i1 !! k = inputs !! k) as Hf1
    by (intros k Hk; by apply lookup_insert_ne).
  clearbody i1.
  destruct (stack_when_present "resolution" i1) as (i2 & H2 & Hr2 & Hf2).
  { intros v Hv. apply Hres. by rewrite <- Hv, Hf1. }
  destruct (stack_when_present "aspect_ratio" i2) as (i3 & H3 & Hr3 & Hf3).
  { intros v Hv. apply Hasp. by rewrite <- Hv, Hf2, Hf1. }
  exists i3, b. repeat split.
  - unfold forward, forward_args, getitem. rewrite Hdata. simpl.
    rewrite (when_present_absent _ _ _ Hrci). simpl.
    unfold stack_inputs. rewrite H1. simpl. rewrite H2. simpl.
    by rewrite H3.
  - by rewrite Hf3, Hf2.
  - rewrite Hf3 by done. by rewrite Hf1 in Hr2.
  - by rewrite Hf2, Hf1 in Hr3.
  - intros k Hk.
    rewrite !not_elem_of_cons in Hk. destruct Hk as (? & ? & ? & _).
    by rewrite Hf3, Hf2, Hf1.
Qed.

Lemma forward_stacks_without_class_image_witness :
  ∃ inputs' b,
    forward Ok sample_data false = Ok (<["inputs" := VDict inputs']> sample_data)
    ∧ inputs' !! "img" = Some (VTensor b)
    ∧ shape b = [1; 2]%nat
    ∧ elems b = [1; 2]
    ∧ stacked_entry (sample_inputs !! "resolution") (inputs' !! "resolution")
    ∧ stacked_entry (sample_inputs !! "aspect_ratio")
        (inputs' !! "aspect_ratio")
    ∧ ∀ k, k ∉ ["img"; "resolution"; "aspect_ratio"] →
           inputs' !! k = sample_inputs !! k.
Proof.
  apply (forward_stacks_without_class_image Ok sample_data sample_inputs false
           [sample_tensor 1 2] [2%nat]).
  - reflexivity.
  - reflexivity.
  - reflexivity.
  - discriminate.
  - repeat constructor.
  - intros v Hv. vm_compute in Hv. injection Hv as <-.
    eexists. reflexivity.
  - intros v Hv. vm_compute in Hv. discriminate Hv.
Defined.

(** C1 as stated fails when a class image is present: one instance image
    and one class image stack to a batch of two, not of one. *)
Lemma forward_batch_longer_than_input_list :
  ¬ forward_stacks_the_input_list.
Proof.
  intros H.
  destruct (H sample_data_dreambooth sample_inputs_dreambooth
              [sample_tensor 1 2] [2%nat])
    as (data' & inputs' & b & Hf & Hd & Hi & Hs).
  - reflexivity.
  - reflexivity.
  - discriminate.
  - repeat constructor.
  - vm_compute in Hf. injection Hf as <-.
    vm_compute in Hd. injection Hd as <-.
    vm_compute in Hi. injection Hi as <-.
    discriminate Hs.
Qed.

(** *** Appending the class image *)

(** Rewrite the lookups of distinct literal keys. *)
Ltac lookup_keys :=
  repeat first
    [ rewrite lookup_insert_eq
    | rewrite lookup_insert_ne by congruence
    | rewrite lookup_delete_eq
    | rewrite lookup_delete_ne by congruence ].

Lemma when_present_append key inputs rci xs cs :
  inputs !! "result_class_image" = Some (VDict rci) →
  optional_lists inputs rci key xs cs →
  when_present key (append_class key) inputs
  = Ok (set_joined key xs cs
          (<["result_class_image" := VDict (popped key xs rci)]> inputs)).
Proof.
  intros Hrci Hopt. destruct xs as [x |]; simpl in Hopt.
  - destruct Hopt as (Hx & c & -> & Hc).
    rewrite (when_present_present _ _ _ _ Hx).
    by apply append_class_Ok.
  - rewrite (when_present_absent _ _ _ Hopt). simpl.
    by rewrite insert_id.
Qed.

Lemma set_joined_lookup_ne key xs cs inputs k :
  k ≠ key → set_joined key xs cs inputs !! k = inputs !! k.
Proof.
  intros Hk. unfold set_joined. destruct xs, cs; try done.
  by apply lookup_insert_ne.
Qed.

Lemma popped_lookup_ne key xs rci k :
  k ≠ key → popped key xs rci !! k = rci !! k.
Proof.
  intros Hk. unfold popped. destruct xs; [| done]. by apply lookup_delete_ne.
Qed.

Lemma set_joined_insert_ne key xs cs inputs k v :
  k ≠ key →
  set_joined key xs cs (<[k := v]> inputs)
  = <[k := v]> (set_joined key xs cs inputs).
Proof.
  intros Hk. unfold set_joined. destruct xs, cs; try done.
  by apply insert_insert_ne.
Qed.

Lemma append_class_image_Ok inputs rci txt ctxt imgs cimgs res cres asp casp :
  inputs !! "result_class_image" = Some (VDict rci) →
  inputs !! "text" = Some (VList txt) → rci !! "text" = Some (VList ctxt) →
  inputs !! "img" = Some (VList imgs) → rci !! "img" = Some (VList cimgs) →
  optional_lists inputs rci "resolution" res cres →
  optional_lists inputs rci "aspect_ratio" asp casp →
  append_class_image inputs
  = Ok (set_joined "aspect_ratio" asp casp
          (set_joined "resolution" res cres
             (<["img" := VList (imgs ++ cimgs)]>
                (<["text" := VList (txt ++ ctxt)]>
                   (<["result_class_image" :=
                        VDict (popped "aspect_ratio" asp
                                 (popped "resolution" res
                                    (delete "img" (delete "text" rci))))]>
                      inputs))))).
Proof.
  intros Hrci Htxt Hctxt Himg Hcimg Hres Hasp. unfold append_class_image.
  rewrite (append_class_Ok "text" inputs rci txt ctxt) by done.
  cbn [mbind result_bind].
  erewrite (append_class_Ok "img" _ (delete "text" rci) imgs cimgs);
    [| by lookup_keys..].
  cbn [mbind result_bind].
  erewrite (when_present_append "resolution" _
              (delete "img" (delete "text" rci)) res cres); cycle 1.
  { by lookup_keys. }
  { destruct res as [x |]; simpl in *.
    - destruct Hres as (Hx & c & -> & Hc). split; [by lookup_keys |].
      exists c. split; [done |]. by lookup_keys.
    - by lookup_keys. }
  cbn [mbind result_bind].
  erewrite (when_present_append "aspect_ratio" _
              (popped "resolution" res (delete "img" (delete "text" rci)))
              asp casp); cycle 1.
  { rewrite set_joined_lookup_ne by done. by lookup_keys. }
  { destruct asp as [x |]; simpl in *.
    - destruct Hasp as (Hx & c & -> & Hc).
      rewrite set_joined_lookup_ne by done. split; [by lookup_keys |].
      exists c. split; [done |].
      rewrite popped_lookup_ne by done. by lookup_keys.
    - rewrite set_joined_lookup_ne by done. by lookup_keys. }
  f_equal. apply map_eq. intros k.
  assert (set_joined "aspect_ratio" asp casp = id
          ∨ ∃ v, set_joined "aspect_ratio" asp casp = insert "aspect_ratio" v)
    as [-> | [va ->]]
    by (unfold set_joined; destruct asp, casp; eauto).
  all: assert (set_joined "resolution" res cres = id
               ∨ ∃ v, set_joined "resolution" res cres = insert "resolution" v)
         as [-> | [vr ->]]
         by (unfold set_joined; destruct res, cres; eauto).
  all: unfold id.
  all: destruct (decide (k = "aspect_ratio")) as [-> | ?]; [by lookup_keys |].
  all: destruct (decide (k = "resolution")) as [-> | ?]; [by lookup_keys |].
  all: destruct (decide (k = "img")) as [-> | ?]; [by lookup_keys |].
  all: destruct (decide (k = "text")) as [-> | ?]; [by lookup_keys |].
  all: destruct (decide (k = "result_class_image")) as [-> | ?];
    by lookup_keys.
Qed.

Lemma stackable_joined_entry key xs cs (inputs rci m : gmap string value) :
  optional_lists inputs rci key xs cs →
  m !! key = inputs !! key →
  stackable_joined xs cs →
  stackable_if_present (set_joined key xs cs m) key.
Proof.
  intros Hopt Hm Hst v Hv. unfold set_joined in Hv.
  destruct xs as [x |]; simpl in Hopt.
  - destruct Hopt as (_ & c & -> & _).
    rewrite lookup_insert_eq in Hv. injection Hv as <-. exact Hst.
  - by rewrite Hm, Hopt in Hv.
Qed.

(** C2: with 'result_class_image' present, [forward] joins the class
    image's 'text' and 'img' lists onto those of the inputs, and its
    'resolution' and 'aspect_ratio' lists when the inputs have those
    keys, removing each joined entry from the sub-dict, and goes on to
    stack the joined dict.  When the joined image list is non-empty with
    tensors of one shape, and the joined optional lists can be stacked,
    it hands to the base class the dict whose 'img' is the batch stacked
    from the joined list, which holds the instance examples followed by
    the class examples, in order. *)
Theorem forward_appends_class_examples
  {R} (base_forward : gmap string value → result R)
  (data inputs rci : gmap string value) (training : bool)
  (txt ctxt : list value) (ts cts : list tensor) (s : list nat)
  (res cres asp casp : option (list value)) :
  data !! "inputs" = Some (VDict inputs) →
  inputs !! "result_class_image" = Some (VDict rci) →
  inputs !! "text" = Some (VList txt) →
  rci !! "text" = Some (VList ctxt) →
  inputs !! "img" = Some (VList (VTensor <$> ts)) →
  rci !! "img" = Some (VList (VTensor <$> cts)) →
  optional_lists inputs rci "resolution" res cres →
  optional_lists inputs rci "aspect_ratio" asp casp →
  let rci' :=
    popped "aspect_ratio" asp
      (popped "resolution" res (delete "img" (delete "text" rci))) in
  let merged :=
    set_joined "aspect_ratio" asp casp
      (set_joined "resolution" res cres
         (<["img" := VList (VTensor <$> (ts ++ cts)%list)]>
            (<["text" := VList (txt ++ ctxt)]>
               (<["result_class_image" := VDict rci']> inputs)))) in
  let batch :=
    Tensor ((length ts + length cts)%nat :: s)
      (concat (elems <$> (ts ++ cts)%list)) in
  append_class_image inputs = Ok merged
  ∧ forward base_forward data training
    = (stack_inputs merged ≫=
         fun inputs' => base_forward (<["inputs" := VDict inputs']> data))
  ∧ ((ts ++ cts)%list ≠ [] →
     tensors_of_shape s (ts ++ cts)%list →
     Forall tensor_wf (ts ++ cts)%list →
     stackable_joined res cres →
     stackable_joined asp casp →
     ∃ inputs',
       stack_inputs merged = Ok inputs'
       ∧ forward base_forward data training
         = base_forward (<["inputs" := VDict inputs']> data)
       ∧ inputs' !! "img" = Some (VTensor batch)
       ∧ (∀ k t, ts !! k = Some t → select batch k = Some t)
       ∧ (∀ k t, cts !! k = Some t →
                 select batch (length ts + k) = Some t)
       ∧ inputs' !! "text" = Some (VList (txt ++ ctxt))
       ∧ inputs' !! "result_class_image" = Some (VDict rci')
       ∧ stacked_entry (merged !! "resolution") (inputs' !! "resolution")
       ∧ stacked_entry (merged !! "aspect_ratio")
           (inputs' !! "aspect_ratio")
       ∧ ∀ k, k ∉ touched_keys → inputs' !! k = inputs !! k).
Proof.
  intros Hdata Hrci Htxt Hctxt Himg Hcimg Hres Hasp rci' merged batch.
  assert (append_class_image inputs = Ok merged) as Hmerge.
  { unfold merged, rci'. rewrite fmap_app. by apply append_class_image_Ok. }
  assert (forward base_forward data training
          = (stack_inputs merged ≫=
               fun inputs' => base_forward (<["inputs" := VDict inputs']> data)))
    as Hfwd.
  { clearbody merged. unfold forward, forward_args, getitem.
    rewrite Hdata. simpl.
    rewrite (when_present_present _ _ _ _ Hrci), Hmerge. simpl.
    by destruct (stack_inputs merged). }
  split; [done |]. split; [done |].
  intros Hne Hs Hwf Hsres Hsasp.
  assert (merged !! "img" = Some (VList (VTensor <$> (ts ++ cts)%list)))
    as Hmimg.
  { unfold merged. rewrite !set_joined_lookup_ne by done.
    apply lookup_insert_eq. }
  assert (merged !! "text" = Some (VList (txt ++ ctxt))) as Hmtxt.
  { unfold merged. rewrite !set_joined_lookup_ne by done. by lookup_keys. }
  assert (merged !! "result_class_image" = Some (VDict rci')) as Hmrci.
  { unfold merged. rewrite !set_joined_lookup_ne by done. by lookup_keys. }
  assert (∀ k, k ∉ touched_keys → merged !! k = inputs !! k) as Hmframe.
  { intros k Hk. unfold touched_keys in Hk. rewrite !not_elem_of_cons in Hk.
    destruct Hk as (? & ? & ? & ? & ? & _).
    unfold merged. rewrite !set_joined_lookup_ne by done. by lookup_keys. }
  assert (stackable_if_present merged "resolution") as Hmres.
  { intros v Hv. unfold merged in Hv.
    rewrite set_joined_lookup_ne in Hv by done.
    revert v Hv. apply (stackable_joined_entry _ _ _ inputs rci); [done | | done].
    by lookup_keys. }
  assert (stackable_if_present merged "aspect_ratio") as Hmasp.
  { unfold merged.
    apply (stackable_joined_entry _ _ _ inputs rci); [done | | done].
    rewrite set_joined_lookup_ne by done. by lookup_keys. }
  assert (torch_stack (VList (VTensor <$> (ts ++ cts)%list)) = Ok batch)
    as Hbatch.
  { rewrite (torch_stack_tensors s (ts ++ cts)) by done.
    unfold batch. by rewrite length_app. }
  clearbody merged.
  set (i1 := <["img" := VTensor batch]> merged).
  assert (stack_key "img" merged = Ok i1) as H1
    by (by eapply stack_key_Ok).
  assert (∀ k, k ≠ "img" → i1 !! k = merged !! k) as Hf1
    by (intros k Hk; by apply lookup_insert_ne).
  assert (i1 !! "img" = Some (VTensor batch)) as Hb1
    by apply lookup_insert_eq.
  clearbody i1.
  destruct (stack_when_present "resolution" i1) as (i2 & H2 & Hr2 & Hf2).
  { intros v Hv. apply Hmres. by rewrite <- Hv, Hf1. }
  destruct (stack_when_present "aspect_ratio" i2) as (i3 & H3 & Hr3 & Hf3).
  { intros v Hv. apply Hmasp. by rewrite <- Hv, Hf2, Hf1. }
  assert (stack_inputs merged = Ok i3) as Hst.
  { unfold stack_inputs. rewrite H1. simpl. rewrite H2. simpl. exact H3. }
  exists i3.
  split; [done |].
  split; [| split; [| split; [| split; [| split; [| split; [| split; [| split]]]]]]].
  - rewrite Hfwd, Hst. reflexivity.
  - by rewrite Hf3, Hf2.
  - intros k t Hk. unfold batch. rewrite <- length_app.
    apply select_stacked; [done | done |]. by apply lookup_app_l_Some.
  - intros k t Hk. unfold batch. rewrite <- length_app.
    apply select_stacked; [done | done |].
    rewrite lookup_app_r by lia.
    by replace (length ts + k - length ts)%nat with k by lia.
  - by rewrite Hf3, Hf2, Hf1.
  - by rewrite Hf3, Hf2, Hf1.
  - rewrite Hf3 by done. by rewrite Hf1 in Hr2.
  - by rewrite Hf2, Hf1 in Hr3.
  - intros k Hk. pose proof Hk as Hk'.
    unfold touched_keys in Hk'. rewrite !not_elem_of_cons in Hk'.
    destruct Hk' as (? & ? & ? & ? & ? & _).
    rewrite Hf3, Hf2, Hf1 by done. by apply Hmframe.
Qed.

Lemma forward_appends_class_examples_witness :
  ∃ inputs',
    forward Ok sample_data_dreambooth true
    = Ok (<["inputs" := VDict inputs']> sample_data_dreambooth)
    ∧ inputs' !! "img"
      = Some (VTensor (Tensor [2; 2]%nat [1; 2; 3; 4]))
    ∧ select (Tensor [2; 2]%nat [1; 2; 3; 4]) 0 = Some (sample_tensor 1 2)
    ∧ select (Tensor [2; 2]%nat [1; 2; 3; 4]) 1 = Some (sample_tensor 3 4)
    ∧ inputs' !! "text"
      = Some (VList [VStr "a photo of sks dog"; VStr "a photo of dog"])
    ∧ inputs' !! "result_class_image" = Some (VDict ∅)
    ∧ inputs' !! "resolution"
      = Some (VTensor (Tensor [2; 2]%nat [512; 512; 256; 256])).
Proof.
  destruct (forward_appends_class_examples Ok
              sample_data_dreambooth sample_inputs_dreambooth
              sample_class_image true
              [VStr "a photo of sks dog"] [VStr "a photo of dog"]
              [sample_tensor 1 2] [sample_tensor 3 4] [2%nat]
              (Some [VTensor (sample_tensor 512 512)])
              (Some [VTensor (sample_tensor 256 256)])
              None None)
    as (_ & _ & H).
  - reflexivity.
  - reflexivity.
  - reflexivity.
  - reflexivity.
  - reflexivity.
  - reflexivity.
  - split; [reflexivity |]. eexists. split; reflexivity.
  - reflexivity.
  - destruct H
      as (inputs' & _ & Hfwd & Himg & Hts & Hcts & Htxt & Hrci & Hres & _).
    + discriminate.
    + repeat constructor.
    + repeat constructor.
    + eexists. reflexivity.
    + exact I.
    + exists inputs'. split; [exact Hfwd |]. split; [exact Himg |].
      split; [exact (Hts 0%nat _ eq_refl) |].
      split; [exact (Hcts 0%nat _ eq_refl) |].
      split; [exact Htxt |]. split.
      * rewrite Hrci. reflexivity.
      * destruct Hres as (t & Ht & ->). vm_compute in Ht.
        by injection Ht as <-.
Defined.

End Preprocessor.

(** ** Properties of the configuration files *)

Module ConfigFacts.
Import Configs Statements.

(** C8: every top-level training config starts with a [_base_] list that
    names one model file, one dataset file, one schedule file and the
    default runtime file, in that order, and after it assigns only dict
    entries (or lists of dicts) to the dataloader, optimizer, hooks and
    model names. *)
Theorem training_configs_select_bases :
  Forall (fun f => well_formed_training_config f = true) training_configs.
Proof. repeat constructor. Qed.

(** The [_base_] lists themselves. *)
Lemma training_configs_bases :
  (fun f => assoc "_base_" f) <$> training_configs
  = Some <$> [tiny_sd_dreambooth_lora_dog._base_;
              lcm_xl_lora_pokemon_blip._base_;
              pixart_alpha_1024_pokemon_blip._base_;
              stable_diffusion_xl_pokemon_blip_pre_compute._base_].
Proof. reflexivity. Qed.

Lemma pokemon_pipeline_eight_steps :
  pipeline_is eight_steps pokemon_blip_xl.train_pipeline.
Proof.
  eexists. split; [reflexivity |].
  repeat (constructor; [split; [reflexivity | repeat constructor] |]).
  constructor.
Qed.

Lemma backpack_pipeline_with_dump :
  pipeline_is eight_steps_with_dump google_backpack_dreambooth_xl.train_pipeline.
Proof.
  eexists. split; [reflexivity |].
  repeat (constructor; [split; [reflexivity | repeat constructor] |]).
  constructor.
Qed.

Lemma pokemon_hooks :
  hooks_visualize_then_save "SDCheckpointHook" pokemon_blip_xl.custom_hooks.
Proof.
  eexists _, _. split; [reflexivity |].
  repeat (split; [reflexivity |]). reflexivity.
Qed.

Lemma backpack_hooks :
  hooks_visualize_then_save "LoRASaveHook"
    google_backpack_dreambooth_xl.custom_hooks.
Proof.
  eexists _, _. split; [reflexivity |].
  repeat (split; [reflexivity |]). reflexivity.
Qed.

(** C9 as stated fails: the backpack pipeline has nine steps, with an
    image dump before the normalization. *)
Lemma backpack_pipeline_has_nine_steps :
  ¬ every_dataset_has_eight_steps.
Proof.
  unfold every_dataset_has_eight_steps, dataset_base_configs.
  intros H. apply Forall_cons in H as [_ H]. apply Forall_cons in H as [H _].
  destruct H as (p & Hp & steps & -> & Hsteps).
  injection Hp as <-. apply Forall2_length in Hsteps. discriminate Hsteps.
Qed.

(** C9, amended: the pokemon dataset file defines [train_pipeline] as the
    eight steps, the backpack dataset file as the same steps with an
    image dump between to-tensor and normalize; both define
    [custom_hooks] as a visualization hook with four copies of one
    prompt at 1024x1024 followed by a checkpoint-saving hook, which is
    the SDCheckpointHook in the pokemon file and the LoRASaveHook in the
    backpack file. *)
Theorem dataset_pipelines_and_hooks :
  dataset_base_configs
  = [pokemon_blip_xl.vars; google_backpack_dreambooth_xl.vars]
  ∧ (assoc "train_pipeline" pokemon_blip_xl.vars
     = Some pokemon_blip_xl.train_pipeline
     ∧ pipeline_is eight_steps pokemon_blip_xl.train_pipeline)
  ∧ (assoc "train_pipeline" google_backpack_dreambooth_xl.vars
     = Some google_backpack_dreambooth_xl.train_pipeline
     ∧ pipeline_is eight_steps_with_dump
         google_backpack_dreambooth_xl.train_pipeline)
  ∧ (assoc "custom_hooks" pokemon_blip_xl.vars
     = Some pokemon_blip_xl.custom_hooks
     ∧ hooks_visualize_then_save "SDCheckpointHook"
         pokemon_blip_xl.custom_hooks)
  ∧ (assoc "custom_hooks" google_backpack_dreambooth_xl.vars
     = Some google_backpack_dreambooth_xl.custom_hooks
     ∧ hooks_visualize_then_save "LoRASaveHook"
         google_backpack_dreambooth_xl.custom_hooks).
Proof.
  split; [reflexivity |].
  split; [split; [reflexivity | apply pokemon_pipeline_eight_steps] |].
  split; [split; [reflexivity | apply backpack_pipeline_with_dump] |].
  split; (split; [reflexivity |]).
  - apply pokemon_hooks.
  - apply backpack_hooks.
Qed.

(** C10: each LoRA model file sets [unet_lora_config] with type 'LoRA'
    and rank 8 over a non-empty list of module names; the small-SD file
    has alpha 8 over the four attention projections, the LCM-XL file
    alpha 1 over fourteen modules. *)
Theorem lora_configs :
  Forall (fun f : file =>
            ∃ c mods,
              lora_config f = Some c
              ∧ cfg_get "type" c = Some (CStr "LoRA")
              ∧ cfg_get "r" c = Some (CInt 8)
              ∧ target_modules f = Some mods
              ∧ mods ≠ []
              ∧ forallb is_str mods = true)
    lora_model_base_configs
  ∧ (lora_config small_sd_lora.vars ≫= cfg_get "lora_alpha" = Some (CInt 8)
     ∧ target_modules small_sd_lora.vars
       = Some [CStr "to_q"; CStr "to_v"; CStr "to_k"; CStr "to_out.0"])
  ∧ (lora_config lcm_xl_lora.vars ≫= cfg_get "lora_alpha" = Some (CInt 1)
     ∧ length <$> target_modules lcm_xl_lora.vars = Some 14%nat).
Proof.
  split; [| split; split; reflexivity].
  unfold lora_model_base_configs.
  apply Forall_cons. split; [| apply Forall_cons; split; [| apply Forall_nil]].
  all: cbv beta; do 2 eexists; repeat (split; [reflexivity |]).
  all: split; [discriminate | reflexivity].
Qed.

End ConfigFacts.

(** ** Further properties of [random_bbox] *)

Module RandomBBoxMore.
Import Loading Statements RandomBBox.

(** X1: if any of the three checks of [random_bbox] fails (box larger
    than the image, delta not smaller than the box, margin that does not
    fit), the call raises [ValueError], whatever the random state. *)
Theorem random_bbox_rejects_failed_check
  img_h img_w s d m mh mw dh dw gh gw (g : rng) :
  int_arg s mh mw → int_arg d dh dw → int_arg m gh gw →
  (mh > img_h ∨ mw > img_w)
  ∨ (dh / 2 * 2 >= mh ∨ dw / 2 * 2 >= mw)
  ∨ (img_h - mh < 2 * gh ∨ img_w - mw < 2 * gw) →
  random_bbox (img_h, img_w) s d m g = Raise ValueError.
Proof.
  intros [Hs1 Hs2]%int_arg_unpack [Hd1 Hd2]%int_arg_unpack
    [Hm1 Hm2]%int_arg_unpack Hbad.
  rewrite (random_bbox_unpacked _ _ _ _ _ mh mw dh dw gh gw) by done.
  destruct (validation_fails img_h img_w mh mw dh dw gh gw) eqn:Hv; [done |].
  apply validation_passes in Hv. lia.
Qed.

Lemma random_bbox_rejects_failed_check_witness :
  random_bbox (64, 64) (VInt 128) (VTuple [VInt 40; VInt 40]) (VInt 20)
    (fun _ => 5)
  = Raise ValueError.
Proof.
  apply (random_bbox_rejects_failed_check 64 64 _ _ _ 128 128 40 40 20 20).
  - by left.
  - by right.
  - by left.
  - left. lia.
Defined.

(** X2: when the image shape fits [int64], the box fits the image, the
    delta is non-negative and smaller than the box, and the margins are
    non-negative and leave at least one free row and column,
    [random_bbox] returns a box and has consumed exactly four draws. *)
Theorem random_bbox_returns_after_four_draws
  img_h img_w s d m mh mw dh dw gh gw (g : rng) :
  int_arg s mh mw → int_arg d dh dw → int_arg m gh gw →
  img_h <= int64_max → img_w <= int64_max →
  mh <= img_h → mw <= img_w →
  0 <= dh → 0 <= dw → dh / 2 * 2 < mh → dw / 2 * 2 < mw →
  0 <= gh → 0 <= gw →
  2 * gh < img_h - mh → 2 * gw < img_w - mw →
  ∃ b, random_bbox (img_h, img_w) s d m g
       = Ok (b, fun n => g (4 + n)%nat).
Proof.
  intros [Hs1 Hs2]%int_arg_unpack [Hd1 Hd2]%int_arg_unpack
    [Hm1 Hm2]%int_arg_unpack ? ? ? ? Hdh Hdw ? ? ? ? ? ?.
  rewrite (random_bbox_unpacked _ _ _ _ _ mh mw dh dw gh gw) by done.
  assert (validation_fails img_h img_w mh mw dh dw gh gw = false) as ->
    by (apply validation_passes; lia).
  pose proof (Z.div_pos dh 2 Hdh ltac:(lia)).
  pose proof (Z.div_pos dw 2 Hdw ltac:(lia)).
  destruct (draw_bbox_returns img_h img_w mh mw dh dw gh gw g) as [b Hb];
    [unfold int64_min; lia.. |].
  exists b. by rewrite Hb.
Qed.

Lemma random_bbox_returns_after_four_draws_witness :
  ∃ b, random_bbox (256, 256) (VInt 128) (VInt 40) (VInt 20)
         (fun n => Z.of_nat n)
       = Ok (b, fun n => Z.of_nat (4 + n)).
Proof.
  apply (random_bbox_returns_after_four_draws 256 256 _ _ _ 128 128 40 40 20 20
           (fun n => Z.of_nat n));
    [by left | by left | by left | unfold int64_max; lia
    | unfold int64_max; lia | lia | lia | lia | lia
    | reflexivity | reflexivity | lia | lia | lia | lia].
Defined.

(** X3: an argument that is neither an integer nor a tuple of integers
    (a string, a list, a tuple with a non-integer entry, ...) makes
    [random_bbox] fail its assertion before anything is drawn. *)
Theorem random_bbox_rejects_non_integers
  (img_shape : Z * Z) (s d m : value) (g : rng) :
  is_tuple_of_int (to_tuple s) = false
  ∨ is_tuple_of_int (to_tuple d) = false
  ∨ is_tuple_of_int (to_tuple m) = false →
  random_bbox img_shape s d m g = Raise AssertionError.
Proof.
  intros H. unfold random_bbox.
  destruct (is_tuple_of_int (to_tuple s)); [| done].
  destruct (is_tuple_of_int (to_tuple d)); [| done].
  destruct (is_tuple_of_int (to_tuple m)); [| done].
  by destruct H as [H | [H | H]].
Qed.

Lemma random_bbox_rejects_non_integers_witness :
  random_bbox (256, 256) (VList [VInt 128; VInt 128]) (VInt 40) (VInt 20)
    (fun _ => 0)
  = Raise AssertionError.
Proof.
  apply random_bbox_rejects_non_integers. left. reflexivity.
Defined.

Lemma unpack2_wrong_arity l :
  length l ≠ 2%nat → unpack2 (VTuple l) = Raise ValueError.
Proof. by destruct l as [| a [| b [| c l]]]. Qed.

Lemma unpack2_ints l :
  is_tuple_of_int (VTuple l) = true → length l = 2%nat →
  ∃ a b, unpack2 (VTuple l) = Ok (a, b).
Proof.
  destruct l as [| x [| y [| z l]]]; try done. simpl.
  rewrite !andb_true_iff, !bool_decide_eq_true.
  intros ([a ->] & [b ->] & _) _. by eexists _, _.
Qed.

(** X4: tuples of integers that are not all pairs (an image-like
    3-tuple, an empty tuple, ...) pass the assertion and then fail to
    unpack, which is a [ValueError]. *)
Theorem random_bbox_rejects_wrong_arity
  (img_shape : Z * Z) (s d m : list value) (g : rng) :
  is_tuple_of_int (VTuple s) = true →
  is_tuple_of_int (VTuple d) = true →
  is_tuple_of_int (VTuple m) = true →
  length s ≠ 2%nat ∨ length d ≠ 2%nat ∨ length m ≠ 2%nat →
  random_bbox img_shape (VTuple s) (VTuple d) (VTuple m) g = Raise ValueError.
Proof.
  intros Hs Hd Hm Hlen. destruct img_shape as [img_h img_w].
  unfold random_bbox. cbn [to_tuple]. rewrite Hs, Hd, Hm. cbn [negb].
  destruct (decide (length s = 2%nat)) as [Es | Es]; cycle 1.
  { unfold mbind at 1, M_bind at 1, lift.
    by rewrite (unpack2_wrong_arity s Es). }
  destruct (unpack2_ints s Hs Es) as (mh & mw & ->).
  unfold mbind at 1, M_bind at 1, lift at 1. cbv iota beta.
  destruct (decide (length d = 2%nat)) as [Ed | Ed]; cycle 1.
  { unfold mbind at 1, M_bind at 1, lift.
    by rewrite (unpack2_wrong_arity d Ed). }
  destruct (unpack2_ints d Hd Ed) as (dh & dw & ->).
  unfold mbind at 1, M_bind at 1, lift at 1. cbv iota beta.
  assert (length m ≠ 2%nat) as Em by (by destruct Hlen as [? | [? | ?]]).
  unfold mbind at 1, M_bind at 1, lift.
  by rewrite (unpack2_wrong_arity m Em).
Qed.

Lemma random_bbox_rejects_wrong_arity_witness :
  random_bbox (256, 256) (VTuple [VInt 128; VInt 128; VInt 3])
    (VTuple [VInt 40; VInt 40]) (VTuple [VInt 20; VInt 20]) (fun _ => 0)
  = Raise ValueError.
Proof.
  apply random_bbox_rejects_wrong_arity;
    [reflexivity | reflexivity | reflexivity | left; discriminate].
Defined.

(** X5: the maximal position is never drawn: the bottom edge of a
    returned box lies in [[margin_h + max_mask_h, img_h - margin_h)] and
    its right edge in [[margin_w + max_mask_w, img_w - margin_w)], the
    upper bounds excluded. *)
Theorem random_bbox_far_edges
  img_h img_w s d m mh mw dh dw gh gw g top left h w g' :
  int_arg s mh mw → int_arg d dh dw → int_arg m gh gw →
  random_bbox (img_h, img_w) s d m g = Ok (top, left, h, w, g') →
  gh + mh <= top + h < img_h - gh ∧ gw + mw <= left + w < img_w - gw.
Proof.
  intros [Hs1 Hs2]%int_arg_unpack [Hd1 Hd2]%int_arg_unpack
    [Hm1 Hm2]%int_arg_unpack H.
  apply random_bbox_Ok_inv in H
    as (mh' & mw' & dh' & dw' & gh' & gw' & Es & Ed & Em & _ & H).
  rewrite Hs2 in Es. rewrite Hd2 in Ed. rewrite Hm2 in Em. simplify_eq.
  apply draw_bbox_Ok in H as (top0 & left0 & dt & dl & ? & ? & ? & ? & Hr).
  destruct Hr as (-> & -> & -> & ->). lia.
Qed.

Lemma random_bbox_far_edges_witness :
  20 + 128 <= 34 + 121 < 256 - 20 ∧ 20 + 128 <= 34 + 121 < 256 - 20.
Proof.
  apply (random_bbox_far_edges 256 256 (VInt 128) (VInt 40) (VInt 20)
           128 128 40 40 20 20 (fun _ => 7) 34 34 121 121 (fun _ => 7));
    [by left | by left | by left | reflexivity].
Defined.

(** X6: a returned box is never empty and keeps more than half of the
    maximal height and width. *)
Theorem random_bbox_keeps_half
  img_h img_w s d m mh mw dh dw gh gw g top left h w g' :
  int_arg s mh mw → int_arg d dh dw → int_arg m gh gw →
  random_bbox (img_h, img_w) s d m g = Ok (top, left, h, w, g') →
  0 < h ∧ 0 < w ∧ mh < 2 * h ∧ mw < 2 * w.
Proof.
  intros [Hs1 Hs2]%int_arg_unpack [Hd1 Hd2]%int_arg_unpack
    [Hm1 Hm2]%int_arg_unpack H.
  apply random_bbox_Ok_inv in H
    as (mh' & mw' & dh' & dw' & gh' & gw' & Es & Ed & Em & Hv & H).
  rewrite Hs2 in Es. rewrite Hd2 in Ed. rewrite Hm2 in Em. simplify_eq.
  apply validation_passes in Hv.
  apply draw_bbox_Ok in H as (top0 & left0 & dt & dl & ? & ? & ? & ? & Hr).
  destruct Hr as (-> & -> & -> & ->). lia.
Qed.

Lemma random_bbox_keeps_half_witness :
  0 < 121 ∧ 0 < 121 ∧ 128 < 2 * 121 ∧ 128 < 2 * 121.
Proof.
  apply (random_bbox_keeps_half 256 256 (VInt 128) (VInt 40) (VInt 20)
           128 128 40 40 20 20 (fun _ => 7) 34 34 121 121 (fun _ => 7));
    [by left | by left | by left | reflexivity].
Defined.

(** X7: every admissible box is the outcome of some random state: for
    an image shape within [int64] and non-negative margins, any unshrunk
    corner within the margins and any shrink up to half the delta. *)
Theorem random_bbox_reaches_every_box
  img_h img_w s d m mh mw dh dw gh gw top0 left0 dt dl :
  int_arg s mh mw → int_arg d dh dw → int_arg m gh gw →
  img_h <= int64_max → img_w <= int64_max →
  mh <= img_h → mw <= img_w → dh / 2 * 2 < mh → dw / 2 * 2 < mw →
  0 <= gh → 0 <= gw →
  gh <= top0 < img_h - gh - mh → gw <= left0 < img_w - gw - mw →
  0 <= dt <= dh / 2 → 0 <= dl <= dw / 2 →
  ∃ g g', random_bbox (img_h, img_w) s d m g
          = Ok (top0 + dt, left0 + dl, mh - dt, mw - dl, g').
Proof.
  intros [Hs1 Hs2]%int_arg_unpack [Hd1 Hd2]%int_arg_unpack
    [Hm1 Hm2]%int_arg_unpack ? ? ? ? ? ? ? ? ? ? ? ?.
  set (g3 := fun n : nat => match n with O => dl - 0 | S _ => 0 end).
  set (g2 := fun n : nat => match n with O => dt - 0 | S n => g3 n end).
  set (g1 := fun n : nat => match n with O => left0 - gw | S n => g2 n end).
  set (g0 := fun n : nat => match n with O => top0 - gh | S n => g1 n end).
  exists g0, (fun _ => 0).
  rewrite (random_bbox_unpacked _ _ _ _ _ mh mw dh dw gh gw) by done.
  assert (validation_fails img_h img_w mh mw dh dw gh gw = false) as ->
    by (apply validation_passes; lia).
  assert (int64_min <= 0) by (unfold int64_min; lia).
  unfold draw_bbox.
  unfold mbind at 1, M_bind at 1. unfold g0.
  rewrite (randint_covers gh (img_h - gh - mh) top0 g1) by lia.
  unfold mbind at 1, M_bind at 1. unfold g1.
  rewrite (randint_covers gw (img_w - gw - mw) left0 g2) by lia.
  unfold mbind at 1, M_bind at 1. unfold g2.
  rewrite (randint_covers 0 (dh / 2 + 1) dt g3) by lia.
  unfold mbind at 1, M_bind at 1. unfold g3.
  rewrite (randint_covers 0 (dw / 2 + 1) dl (fun _ => 0)) by lia.
  done.
Qed.

Lemma random_bbox_reaches_every_box_witness :
  ∃ g g', random_bbox (256, 256) (VInt 128) (VInt 40) (VInt 20) g
          = Ok (107 + 20, 20 + 0, 128 - 20, 128 - 0, g').
Proof.
  apply (random_bbox_reaches_every_box 256 256 _ _ _ 128 128 40 40 20 20
           107 20 20 0);
    [by left | by left | by left | unfold int64_max; lia
    | unfold int64_max; lia | lia | lia | reflexivity | reflexivity
    | lia | lia | lia | lia
    | split; [lia | discriminate] | split; [lia | discriminate]].
Defined.

End RandomBBoxMore.

(** ** Further properties of [bbox2mask] *)

Module BBox2MaskMore.
Import Loading Statements BBox2Mask.

Lemma slice_bound_range x n : 0 <= n → 0 <= slice_bound x n <= n.
Proof. intros H. unfold slice_bound. destruct (Z.ltb_spec x 0); lia. Qed.

(** A slice assignment on a constant list, for bounds of any sign. *)
Lemma assign_slice_replicate_any {A} (f : A → A) (x : A) (k : nat)
  (start stop : Z) :
  let a := Z.to_nat (slice_bound start (Z.of_nat k)) in
  let c := (Z.to_nat (slice_bound stop (Z.of_nat k)) - a)%nat in
  assign_slice start stop f (replicate k x)
  = (replicate a x ++ replicate c (f x) ++ replicate (k - (a + c)) x)%list.
Proof.
  intros a c. unfold assign_slice. rewrite length_replicate.
  fold a. fold c.
  pose proof (slice_bound_range start (Z.of_nat k) ltac:(lia)) as Ha.
  pose proof (slice_bound_range stop (Z.of_nat k) ltac:(lia)) as Hb.
  assert (a ≤ k)%nat by lia. assert (a + c ≤ k)%nat by lia.
  clearbody a c.
  rewrite take_replicate, !drop_replicate, take_replicate, fmap_replicate.
  f_equal; [f_equal; lia |]. f_equal. f_equal. lia.
Qed.

Lemma bbox2mask_rows_any height width top left bh bw :
  0 <= height → 0 <= width →
  let a := Z.to_nat (slice_bound top height) in
  let c := (Z.to_nat (slice_bound (top + bh) height) - a)%nat in
  let a' := Z.to_nat (slice_bound left width) in
  let c' := (Z.to_nat (slice_bound (left + bw) width) - a')%nat in
  bbox2mask (height, width) (top, left, bh, bw)
  = Ok (replicate a (blank_row (Z.to_nat width))
        ++ replicate c (box_row (Z.to_nat width) a' c')
        ++ replicate (Z.to_nat height - (a + c)) (blank_row (Z.to_nat width)))%list.
Proof.
  intros Hh Hw a c a' c'.
  unfold bbox2mask, np_zeros.
  destruct (Z.ltb_spec height 0); [lia |].
  destruct (Z.ltb_spec width 0); [lia |]. simpl.
  rewrite assign_slice_replicate_any.
  rewrite assign_slice_replicate_any.
  rewrite !Z2Nat.id by lia. done.
Qed.

Lemma box_row_empty width a : (a ≤ width)%nat → box_row width a 0 = blank_row width.
Proof.
  intros H. unfold box_row, blank_row. simpl.
  rewrite <- replicate_add. f_equal. lia.
Qed.

Lemma banded_same {A} (x : A) (a c k : nat) :
  (a + c ≤ k)%nat →
  (replicate a x ++ replicate c x ++ replicate (k - (a + c)) x)%list
  = replicate k x.
Proof. intros H. rewrite <- !replicate_add. f_equal. lia. Qed.

(** The mask with no pixel set, as [bbox2mask] returns it. *)
Lemma bbox2mask_no_rows_or_columns height width top left bh bw :
  0 <= height → 0 <= width →
  slice_bound (top + bh) height <= slice_bound top height
  ∨ slice_bound (left + bw) width <= slice_bound left width →
  bbox2mask (height, width) (top, left, bh, bw) = np_zeros height width 1.
Proof.
  intros Hh Hw Hempty. rewrite bbox2mask_rows_any by done.
  pose proof (slice_bound_range top height Hh).
  pose proof (slice_bound_range (top + bh) height Hh).
  pose proof (slice_bound_range left width Hw).
  pose proof (slice_bound_range (left + bw) width Hw).
  unfold np_zeros.
  destruct (Z.ltb_spec height 0); [lia |].
  destruct (Z.ltb_spec width 0); [lia |]. simpl. f_equal.
  destruct Hempty as [Hrows | Hcols].
  - replace (Z.to_nat (slice_bound (top + bh) height)
             - Z.to_nat (slice_bound top height))%nat with 0%nat by lia.
    simpl. rewrite Nat.add_0_r, <- replicate_add. f_equal. lia.
  - replace (Z.to_nat (slice_bound (left + bw) width)
             - Z.to_nat (slice_bound left width))%nat with 0%nat by lia.
    rewrite box_row_empty by lia. apply banded_same. lia.
Qed.

(** X8: for any bbox, of any sign, on a non-negative image shape
    [bbox2mask] returns an array of shape (height, width, 1) whose
    entries are all 0 or 1. *)
Theorem bbox2mask_is_binary (height width : Z) (bbox : Z * Z * Z * Z) :
  0 <= height → 0 <= width →
  ∃ m,
    bbox2mask (height, width) bbox = Ok m
    ∧ has_shape m (Z.to_nat height) (Z.to_nat width) 1
    ∧ ∀ i j c z, entry m i j c = Some z → z = 0 ∨ z = 1.
Proof.
  intros Hh Hw. destruct bbox as [[[top left] bh] bw].
  rewrite bbox2mask_rows_any by done.
  pose proof (slice_bound_range top height Hh).
  pose proof (slice_bound_range (top + bh) height Hh).
  pose proof (slice_bound_range left width Hw).
  pose proof (slice_bound_range (left + bw) width Hw).
  set (a := Z.to_nat (slice_bound top height)).
  set (c := (Z.to_nat (slice_bound (top + bh) height) - a)%nat).
  set (a' := Z.to_nat (slice_bound left width)).
  set (c' := (Z.to_nat (slice_bound (left + bw) width) - a')%nat).
  assert (a + c ≤ Z.to_nat height)%nat as Hac by lia.
  assert (a' + c' ≤ Z.to_nat width)%nat as Hac' by lia.
  clearbody a c a' c'.
  eexists. split; [done |]. split.
  - split.
    + rewrite !length_app, !length_replicate. lia.
    + rewrite !Forall_app.
      repeat split; apply Forall_replicate;
        (apply blank_row_shape || by apply box_row_shape).
  - intros i j ch z. unfold entry. intros Hz.
    destruct (_ !! i) as [row |] eqn:Hrow; [| done]. simpl in Hz.
    destruct (row !! j) as [px |] eqn:Hpx; [| done]. simpl in Hz.
    assert (px = [0] ∨ px = [1]) as Hpxv.
    { assert (row = blank_row (Z.to_nat width)
              ∨ row = box_row (Z.to_nat width) a' c') as [-> | ->].
      { apply list_elem_of_lookup_2 in Hrow.
        rewrite !elem_of_app, !elem_of_replicate in Hrow.
        destruct Hrow as [[-> _] | [[-> _] | [-> _]]]; auto. }
      - apply list_elem_of_lookup_2 in Hpx. unfold blank_row in Hpx.
        rewrite elem_of_replicate in Hpx. destruct Hpx as [-> _]. auto.
      - apply list_elem_of_lookup_2 in Hpx. unfold box_row in Hpx.
        rewrite !elem_of_app, !elem_of_replicate in Hpx.
        destruct Hpx as [[-> _] | [[-> _] | [-> _]]]; auto. }
    destruct Hpxv as [-> | ->]; destruct ch as [| ch]; simplify_eq/=; auto.
Qed.

Lemma bbox2mask_is_binary_witness :
  ∃ m,
    bbox2mask (3, 4) (-1, 2, 5, -1) = Ok m
    ∧ has_shape m 3 4 1
    ∧ ∀ i j c z, entry m i j c = Some z → z = 0 ∨ z = 1.
Proof. apply (bbox2mask_is_binary 3 4 (-1, 2, 5, -1)); lia. Defined.

Lemma bbox2mask_negative_shape_witness :
  bbox2mask (-1, 4) (0, 0, 1, 1) = Raise ValueError.
Proof. apply bbox2mask_negative_shape. left. lia. Defined.

(** X10: a bbox with no height or no width, or one that starts at or
    beyond the bottom or right edge of the image, gives the all-zero
    mask. *)
Theorem bbox2mask_outside_is_zeros (height width top left bh bw : Z) :
  0 <= height → 0 <= width → 0 <= top → 0 <= left → 0 <= bh → 0 <= bw →
  bh = 0 ∨ bw = 0 ∨ height <= top ∨ width <= left →
  bbox2mask (height, width) (top, left, bh, bw) = np_zeros height width 1.
Proof.
  intros Hh Hw Ht Hl Hbh Hbw Hout.
  apply bbox2mask_no_rows_or_columns; [done | done |].
  rewrite !slice_bound_nonneg by lia.
  lia.
Qed.

Lemma bbox2mask_outside_is_zeros_witness :
  bbox2mask (3, 4) (3, 1, 2, 2) = np_zeros 3 4 1.
Proof. apply bbox2mask_outside_is_zeros; lia. Defined.

(** X11: a bbox that starts at the origin and is at least as large as
    the image gives the all-one mask. *)
Theorem bbox2mask_cover_is_ones (height width bh bw : Z) :
  0 <= height → 0 <= width → height <= bh → width <= bw →
  bbox2mask (height, width) (0, 0, bh, bw)
  = Ok (replicate (Z.to_nat height) (replicate (Z.to_nat width) [1])).
Proof.
  intros Hh Hw Hbh Hbw. rewrite bbox2mask_rows by lia.
  replace (Z.min 0 height) with 0 by lia.
  replace (Z.min 0 width) with 0 by lia.
  replace (Z.min (0 + bh) height) with height by lia.
  replace (Z.min (0 + bw) width) with width by lia.
  change (Z.to_nat 0) with 0%nat.
  rewrite !Nat.sub_0_r, !Nat.add_0_l, !Nat.sub_diag. simpl.
  rewrite app_nil_r. unfold box_row. simpl.
  by rewrite Nat.sub_diag, app_nil_r.
Qed.

Lemma bbox2mask_cover_is_ones_witness :
  bbox2mask (2, 3) (0, 0, 5, 3) = Ok [[[1]; [1]; [1]]; [[1]; [1]; [1]]].
Proof. apply (bbox2mask_cover_is_ones 2 3 5 3); lia. Defined.

(** X12: a bbox is not clipped at the top or left edge: with a negative
    top (or left) that still reaches into the image, and a height (or
    width) no larger than the image, the negative bound counts from the
    far edge, the slice is empty and the mask is all zero. *)
Theorem bbox2mask_negative_corner_is_zeros (height width top left bh bw : Z) :
  0 <= height → 0 <= width →
  (top < 0 ∧ 0 <= top + bh ∧ bh <= height)
  ∨ (left < 0 ∧ 0 <= left + bw ∧ bw <= width) →
  bbox2mask (height, width) (top, left, bh, bw) = np_zeros height width 1.
Proof.
  intros Hh Hw Hneg.
  apply bbox2mask_no_rows_or_columns; [done | done |].
  unfold slice_bound.
  destruct Hneg as [(? & ? & ?) | (? & ? & ?)]; [left | right].
  - destruct (Z.ltb_spec top 0); [| lia].
    destruct (Z.ltb_spec (top + bh) 0); lia.
  - destruct (Z.ltb_spec left 0); [| lia].
    destruct (Z.ltb_spec (left + bw) 0); lia.
Qed.

Lemma bbox2mask_negative_corner_is_zeros_witness :
  bbox2mask (10, 10) (-2, 3, 5, 4) = np_zeros 10 10 1.
Proof. apply bbox2mask_negative_corner_is_zeros; lia. Defined.

(** A bbox inside the image sets exactly its own area. *)
Lemma bbox2mask_inside_sum height width top left bh bw m :
  0 <= top → 0 <= left → 0 <= bh → 0 <= bw →
  top + bh <= height → left + bw <= width →
  bbox2mask (height, width) (top, left, bh, bw) = Ok m →
  has_shape m (Z.to_nat height) (Z.to_nat width) 1 ∧ np_sum m = bh * bw.
Proof.
  intros Ht Hl Hbh Hbw Hh Hw.
  rewrite bbox2mask_rows by lia.
  rewrite !Z.min_l by lia.
  set (a := Z.to_nat top). set (c := (Z.to_nat (top + bh) - a)%nat).
  set (a' := Z.to_nat left). set (c' := (Z.to_nat (left + bw) - a')%nat).
  assert (Z.of_nat c = bh) as Hc by lia.
  assert (Z.of_nat c' = bw) as Hc' by lia.
  assert (a + c ≤ Z.to_nat height)%nat as Hac by lia.
  assert (a' + c' ≤ Z.to_nat width)%nat as Hac' by lia.
  clearbody a c a' c'. intros [= <-]. split.
  - split.
    + rewrite !length_app, !length_replicate. lia.
    + rewrite !Forall_app.
      repeat split; apply Forall_replicate;
        (apply blank_row_shape || by apply box_row_shape).
  - unfold np_sum.
    rewrite (sum_banded (fun row => foldr Z.add 0 (foldr Z.add 0 <$> row))).
    rewrite blank_row_sum, box_row_sum. lia.
Qed.

End BBox2MaskMore.

(** ** Further properties of [LoadMask] *)

Module LoadMaskMore.
Import Loading Statements Samples RandomBBox BBox2Mask BBox2MaskMore
  LoadMaskTransform.

(** X13: a [LoadMask] built with its default arguments is in mode 'bbox'
    with an empty config, and its [transform] raises [TypeError] on
    every image, since [random_bbox] is called without its required
    [max_bbox_shape]. *)
Theorem default_load_mask_raises
  (irregular ff : Z * Z → gmap string value → M ndarray3)
  (results : gmap string value) (height width : Z) (g : rng) :
  results !! "img" = Some (VImage height width) →
  ∃ self,
    init None None = Ok self
    ∧ mask_mode self = "bbox"
    ∧ transform irregular ff self results g = Raise TypeError.
Proof.
  intros Himg. eexists. split; [reflexivity |]. split; [reflexivity |].
  rewrite (transform_with_image _ _ _ _ height width Himg). reflexivity.
Qed.

Lemma default_load_mask_raises_witness :
  ∃ self,
    init None None = Ok self
    ∧ mask_mode self = "bbox"
    ∧ transform (fun _ _ => raise RuntimeError) (fun _ _ => raise RuntimeError)
        self {[ "img" := VImage 64 64 ]} (fun _ => 0)
      = Raise TypeError.
Proof.
  apply (default_load_mask_raises _ _ _ 64 64). reflexivity.
Defined.

(** X14: whatever the mode, supported or not, [transform] first reads
    the image: without an 'img' entry it raises [KeyError], and with an
    entry that is not an image [AttributeError]. *)
Theorem transform_requires_image
  (irregular ff : Z * Z → gmap string value → M ndarray3)
  (self : LoadMask) (results : gmap string value) (g : rng) :
  (∀ height width, results !! "img" ≠ Some (VImage height width)) →
  transform irregular ff self results g
  = Raise (if results !! "img" is Some _ then AttributeError else KeyError).
Proof.
  intros Hno. unfold transform, getitem.
  destruct (results !! "img") as [v |]; [| done].
  destruct v; try done. by destruct (Hno height width).
Qed.

Lemma transform_requires_image_witness :
  transform (fun _ _ => raise RuntimeError) (fun _ _ => raise RuntimeError)
    {| mask_mode := "set"; mask_config := ∅ |}
    {[ "mask" := VNone ]} (fun _ => 0)
  = Raise KeyError.
Proof.
  etransitivity.
  - apply (transform_requires_image _ _
             {| mask_mode := "set"; mask_config := ∅ |} {[ "mask" := VNone ]}).
    intros height width H. vm_compute in H. discriminate H.
  - reflexivity.
Defined.

Lemma transform_Ok_image irregular ff self results g results' g' :
  transform irregular ff self results g = Ok (results', g') →
  ∃ height width, results !! "img" = Some (VImage height width).
Proof.
  unfold transform, getitem. intros H.
  destruct (results !! "img") as [v |]; [| done].
  destruct v; try done. by eexists _, _.
Qed.

(** X15: a returning [transform] sets 'mask' to an array and leaves
    every entry other than 'mask' and 'mask_bbox' as it was, the image
    included; outside mode 'bbox' it leaves 'mask_bbox' too. *)
Theorem transform_frame
  (irregular ff : Z * Z → gmap string value → M ndarray3)
  (self : LoadMask) (results results' : gmap string value) (g g' : rng) :
  transform irregular ff self results g = Ok (results', g') →
  (∃ m, results' !! "mask" = Some (VArray m))
  ∧ (∀ k, k ≠ "mask" → k ≠ "mask_bbox" → results' !! k = results !! k)
  ∧ (mask_mode self ≠ "bbox" →
     results' !! "mask_bbox" = results !! "mask_bbox").
Proof.
  intros H.
  destruct (transform_Ok_image _ _ _ _ _ _ _ H) as (height & width & Himg).
  rewrite (transform_with_image _ _ _ _ height width Himg) in H.
  destruct (String.eqb_spec (mask_mode self) "bbox") as [Hmode | Hmode].
  { unfold mbind at 1, M_bind at 1 in H.
    destruct (random_bbox_kwargs _ _ g) as [[bbox g1] |]; [| done].
    unfold mbind, M_bind, lift in H.
    destruct (bbox2mask _ bbox) as [m |]; [| done].
    injection H as <- <-. split; [| split].
    - exists m. apply lookup_insert_eq.
    - intros k ? ?. by rewrite !lookup_insert_ne.
    - done. }
  destruct (String.eqb_spec (mask_mode self) "irregular") as [_ | _].
  { unfold mbind, M_bind in H.
    destruct (irregular _ _ g) as [[m g1] |]; [| done].
    injection H as <- <-. split; [| split].
    - exists m. apply lookup_insert_eq.
    - intros k ? ?. by rewrite lookup_insert_ne.
    - intros _. by rewrite lookup_insert_ne. }
  destruct (String.eqb_spec (mask_mode self) "ff") as [_ | _]; [| done].
  unfold mbind, M_bind in H.
  destruct (ff _ _ g) as [[m g1] |]; [| done].
  injection H as <- <-. split; [| split].
  - exists m. apply lookup_insert_eq.
  - intros k ? ?. by rewrite lookup_insert_ne.
  - intros _. by rewrite lookup_insert_ne.
Qed.

Lemma transform_frame_witness :
  ∃ results' g',
    transform no_generator no_generator sample_load_mask sample_results
      (fun _ => 7)
    = Ok (results', g')
    ∧ (∃ m, results' !! "mask" = Some (VArray m))
    ∧ (∀ k, k ≠ "mask" → k ≠ "mask_bbox" →
            results' !! k = sample_results !! k)
    ∧ (mask_mode sample_load_mask ≠ "bbox" →
       results' !! "mask_bbox" = sample_results !! "mask_bbox").
Proof.
  destruct (transform no_generator no_generator sample_load_mask
              sample_results (fun _ => 7)) as [[results' g'] |] eqn:E;
    [| vm_compute in E; discriminate E].
  exists results', g'. split; [reflexivity |].
  exact (transform_frame no_generator no_generator sample_load_mask
           sample_results results' (fun _ => 7) g' E).
Defined.

Lemma random_bbox_kwargs_Ok_args img_shape kwargs g b g' :
  random_bbox_kwargs img_shape kwargs g = Ok (b, g') →
  ∃ s, kwargs !! "max_bbox_shape" = Some s
       ∧ random_bbox img_shape s
           (default default_max_bbox_delta (kwargs !! "max_bbox_delta"))
           (default default_min_margin (kwargs !! "min_margin")) g
         = Ok (b, g').
Proof.
  unfold random_bbox_kwargs.
  destruct (negb _); [done |].
  destruct (kwargs !! "max_bbox_shape") as [s |]; [| done].
  intros H. by exists s.
Qed.

(** X16: in mode 'bbox' with non-negative margins (the default margin
    of 20 among them), a returning [transform] stores a bbox that lies
    inside the image together with the mask of exactly that bbox: the
    mask has the image's shape and its entries sum to the area h * w of
    the stored bbox. *)
Theorem transform_bbox_mask_matches_bbox
  (irregular ff : Z * Z → gmap string value → M ndarray3)
  (self : LoadMask) (results results' : gmap string value)
  (height width gh gw : Z) (g g' : rng) :
  mask_mode self = "bbox" →
  results !! "img" = Some (VImage height width) →
  unpack2 (to_tuple (default default_min_margin
                       (mask_config self !! "min_margin"))) = Ok (gh, gw) →
  0 <= gh → 0 <= gw →
  transform irregular ff self results g = Ok (results', g') →
  ∃ top left h w m,
    results' !! "mask_bbox"
    = Some (VTuple [VInt top; VInt left; VInt h; VInt w])
    ∧ results' !! "mask" = Some (VArray m)
    ∧ bbox2mask (height, width) (top, left, h, w) = Ok m
    ∧ (0 <= top ∧ 0 <= left ∧ top + h <= height ∧ left + w <= width)
    ∧ has_shape m (Z.to_nat height) (Z.to_nat width) 1
    ∧ np_sum m = h * w.
Proof.
  intros Hmode Himg Hmargin Hgh Hgw H.
  destruct (random_bbox_kwargs (height, width) (mask_config self) g)
    as [[bbox g1] | e] eqn:Hbox; cycle 1.
  { by rewrite (transform_bbox_raises _ _ _ _ _ _ Himg g e Hmode Hbox) in H. }
  destruct (transform_bbox_returns irregular ff self results height width
              Himg g bbox g1 Hmode Hbox) as (m & Hm & Ht).
  rewrite Ht in H. injection H as <- <-.
  destruct bbox as [[[top left] h] w].
  apply random_bbox_kwargs_Ok_args in Hbox as (s & _ & Hbox).
  apply random_bbox_Ok_inv in Hbox
    as (mh & mw & dh & dw & gh' & gw' & _ & _ & Em & Hv & Hdraw).
  rewrite Hmargin in Em. injection Em as <- <-.
  apply validation_passes in Hv.
  apply draw_bbox_Ok in Hdraw
    as (top0 & left0 & dt & dl & ? & ? & ? & ? & Hr).
  destruct Hr as (-> & -> & -> & ->).
  exists (top0 + dt), (left0 + dl), (mh - dt), (mw - dl), m.
  split; [by rewrite lookup_insert_ne, lookup_insert_eq |].
  split; [apply lookup_insert_eq |]. split; [done |].
  split; [lia |].
  apply (bbox2mask_inside_sum height width (top0 + dt) (left0 + dl)
           (mh - dt) (mw - dl) m); [lia.. | done].
Qed.

Lemma transform_bbox_mask_matches_bbox_witness :
  ∃ results' g' top left h w m,
    transform no_generator no_generator sample_load_mask sample_results
      (fun _ => 7)
    = Ok (results', g')
    ∧ results' !! "mask_bbox"
      = Some (VTuple [VInt top; VInt left; VInt h; VInt w])
    ∧ results' !! "mask" = Some (VArray m)
    ∧ bbox2mask (12, 12) (top, left, h, w) = Ok m
    ∧ (0 <= top ∧ 0 <= left ∧ top + h <= 12 ∧ left + w <= 12)
    ∧ has_shape m 12 12 1
    ∧ np_sum m = h * w.
Proof.
  destruct (transform no_generator no_generator sample_load_mask
              sample_results (fun _ => 7)) as [[results' g'] |] eqn:E;
    [| vm_compute in E; discriminate E].
  destruct (transform_bbox_mask_matches_bbox no_generator no_generator
              sample_load_mask sample_results results' 12 12 2 2
              (fun _ => 7) g')
    as (top & left & h & w & m & H); [reflexivity.. | lia | lia | exact E |].
  by exists results', g', top, left, h, w, m.
Defined.

(** X17: in mode 'bbox' a config entry that is not a parameter of
    [random_bbox] ('img_shape', or the options of another mode) is a
    [TypeError]. *)
Theorem transform_bbox_rejects_unknown_option
  (irregular ff : Z * Z → gmap string value → M ndarray3)
  (self : LoadMask) (results : gmap string value) (height width : Z)
  (key : string) (g : rng) :
  mask_mode self = "bbox" →
  results !! "img" = Some (VImage height width) →
  is_Some (mask_config self !! key) →
  key ∉ ["max_bbox_shape"; "max_bbox_delta"; "min_margin"] →
  transform irregular ff self results g = Raise TypeError.
Proof.
  intros Hmode Himg Hkey Hnot.
  apply (transform_bbox_raises _ _ _ _ _ _ Himg g TypeError Hmode).
  unfold random_bbox_kwargs.
  rewrite bool_decide_eq_false_2; [done |].
  intros Hsub. apply Hnot.
  apply elem_of_dom in Hkey. apply Hsub in Hkey.
  rewrite !elem_of_union, !elem_of_singleton in Hkey.
  rewrite !elem_of_cons. tauto.
Qed.

Lemma transform_bbox_rejects_unknown_option_witness :
  transform no_generator no_generator
    {| mask_mode := "bbox";
       mask_config := {[ "max_bbox_shape" := VInt 6;
                         "img_shape" := VTuple [VInt 12; VInt 12] ]} |}
    sample_results (fun _ => 7)
  = Raise TypeError.
Proof.
  apply (transform_bbox_rejects_unknown_option _ _ _ _ 12 12 "img_shape").
  - reflexivity.
  - reflexivity.
  - vm_compute. by eexists.
  - rewrite !elem_of_cons, elem_of_nil.
    intros [? | [? | [? | []]]]; discriminate.
Defined.

End LoadMaskMore.

(** ** Further properties of [torch.stack] and of [forward] *)

Module PreprocessorMore.
Import PixArt Statements Samples Preprocessor.

Lemma mapM_as_tensor_None l :
  Exists (fun v => as_tensor v = None) l → mapM as_tensor l = None.
Proof.
  induction 1 as [v l Hv | v l _ IH]; cbn [mapM].
  - by rewrite Hv.
  - rewrite IH. by destruct (as_tensor v).
Qed.

Lemma same_shape_mismatch t ts u :
  u ∈ ts → shape u ≠ shape t →
  forallb (fun u => bool_decide (shape u = shape t)) ts = false.
Proof.
  intros Hu Hne.
  destruct (forallb _ ts) eqn:E; [| done].
  apply same_shape_forallb in E. unfold tensors_of_shape in E.
  rewrite Forall_forall in E. by destruct (Hne (E u Hu)).
Qed.

Lemma torch_stack_mixed_shapes ts t u :
  t ∈ ts → u ∈ ts → shape t ≠ shape u →
  torch_stack (VList (VTensor <$> ts)) = Raise RuntimeError.
Proof.
  intros Ht Hu Hne. unfold torch_stack. rewrite mapM_as_tensor.
  destruct ts as [| t0 ts]; [done |].
  assert (∃ v, v ∈ ts ∧ shape v ≠ shape t0) as (v & Hv & Hvne).
  { apply elem_of_cons in Ht as [-> | Ht], Hu as [-> | Hu].
    - done.
    - exists u. split; [done |]. by intros E.
    - by exists t.
    - destruct (decide (shape t = shape t0)) as [E | E]; [| by exists t].
      exists u. split; [done |]. by rewrite <- E. }
  by rewrite (same_shape_mismatch t0 ts v).
Qed.

Lemma length_concat_blocks {A} (n : nat) (xs : list (list A)) :
  Forall (fun y => length y = n) xs → length (concat xs) = (length xs * n)%nat.
Proof.
  induction 1 as [| y ys Hy _ IH]; [done |].
  rewrite concat_cons, length_app, IH, Hy. simpl. lia.
Qed.

(** Stacking and slicing are inverse: for well-formed tensors, the
    batch is well formed and its [k]-th slice is the [k]-th tensor of
    the list, for every [k]; past the end there is no slice. *)
Lemma torch_stack_select_round_trip (ts : list tensor) (b : tensor) :
  Forall tensor_wf ts →
  torch_stack (VList (VTensor <$> ts)) = Ok b →
  tensor_wf b ∧ ∀ k, select b k = ts !! k.
Proof.
  intros Hwf Hb.
  apply torch_stack_Ok_inv in Hb as (s & ts' & Heq & _ & Hs & ->).
  apply fmap_VTensor_inj in Heq. subst ts'.
  assert (Forall (fun y => length y = numel s) (elems <$> ts)) as Hlen.
  { apply Forall_fmap. apply Forall_forall. intros u Hu. simpl.
    unfold tensors_of_shape in Hs. rewrite Forall_forall in Hwf, Hs.
    specialize (Hwf u Hu). specialize (Hs u Hu). unfold tensor_wf in Hwf.
    by rewrite <- Hs. }
  split.
  - unfold tensor_wf. simpl.
    by rewrite (length_concat_blocks (numel s)), length_fmap.
  - intros k. destruct (ts !! k) as [t |] eqn:Hk.
    + by apply select_stacked.
    + unfold select. simpl. apply lookup_ge_None in Hk.
      by destruct (decide (k < length ts)%nat); [lia |].
Qed.

(** *** Keys of the dicts *)

Lemma append_class_dom key inputs inputs' :
  append_class key inputs = Ok inputs' →
  dom inputs' = (dom inputs : gset string).
Proof.
  unfold append_class, getitem, dict_pop. intros H.
  destruct (inputs !! key) as [a |] eqn:Ha; [| done].
  destruct (inputs !! "result_class_image") as [r |] eqn:Hr; [| done].
  simpl in H. destruct (pop_receiver r) as [rci |]; [| done].
  simpl in H. destruct (rci !! key) as [b |]; [| done].
  simpl in H. destruct (add a b) as [s |]; [| done].
  simpl in H. injection H as <-.
  rewrite dom_insert_lookup_L, dom_insert_lookup_L; [done | by eexists |].
  destruct (decide (key = "result_class_image")) as [-> | Hne].
  - rewrite lookup_insert_eq. by eexists.
  - rewrite lookup_insert_ne by done. by eexists.
Qed.

Lemma stack_key_dom key inputs inputs' :
  stack_key key inputs = Ok inputs' →
  dom inputs' = (dom inputs : gset string).
Proof.
  intros (v & t & Hv & _ & ->)%stack_key_inv.
  apply dom_insert_lookup_L. by eexists.
Qed.

Lemma when_present_dom key step inputs inputs' :
  (∀ i i', step i = Ok i' → dom i' = (dom i : gset string)) →
  when_present key step inputs = Ok inputs' →
  dom inputs' = (dom inputs : gset string).
Proof.
  intros Hstep. unfold when_present. destruct (contains inputs key).
  - apply Hstep.
  - by intros [= <-].
Qed.

Lemma append_class_image_dom inputs inputs' :
  append_class_image inputs = Ok inputs' →
  dom inputs' = (dom inputs : gset string).
Proof.
  unfold append_class_image. intros H.
  destruct (append_class "text" inputs) as [i1 |] eqn:E1; [| done].
  cbn [mbind result_bind] in H.
  destruct (append_class "img" i1) as [i2 |] eqn:E2; [| done].
  cbn [mbind result_bind] in H.
  destruct (when_present "resolution" (append_class "resolution") i2)
    as [i3 |] eqn:E3; [| done].
  cbn [mbind result_bind] in H.
  apply append_class_dom in E1, E2.
  apply (when_present_dom _ _ _ _ (append_class_dom "resolution")) in E3.
  apply (when_present_dom _ _ _ _ (append_class_dom "aspect_ratio")) in H.
  congruence.
Qed.

Lemma stack_inputs_dom inputs inputs' :
  stack_inputs inputs = Ok inputs' →
  dom inputs' = (dom inputs : gset string).
Proof.
  unfold stack_inputs. intros H.
  destruct (stack_key "img" inputs) as [i1 |] eqn:E1; [| done].
  cbn [mbind result_bind] in H.
  destruct (when_present "resolution" (stack_key "resolution") i1)
    as [i2 |] eqn:E2; [| done].
  cbn [mbind result_bind] in H.
  apply stack_key_dom in E1.
  apply (when_present_dom _ _ _ _ (stack_key_dom "resolution")) in E2.
  apply (when_present_dom _ _ _ _ (stack_key_dom "aspect_ratio")) in H.
  congruence.
Qed.

(** X21: [forward] neither adds nor removes a key: the dict handed to
    the base class has the keys of [data], and its 'inputs' dict the
    keys of [data['inputs']] ('result_class_image' stays, emptied of
    what was joined). *)
Theorem forward_keeps_key_sets (data data' : gmap string value) :
  forward_args data = Ok data' →
  dom data' = (dom data : gset string)
  ∧ ∃ inputs inputs',
      data !! "inputs" = Some (VDict inputs)
      ∧ data' !! "inputs" = Some (VDict inputs')
      ∧ dom inputs' = (dom inputs : gset string).
Proof.
  intros (inputs & merged & inputs' & Hin & Hm & Hs & ->)%forward_args_inv.
  split.
  - apply dom_insert_lookup_L. by eexists.
  - exists inputs, inputs'. split; [done |]. split; [apply lookup_insert_eq |].
    apply stack_inputs_dom in Hs.
    apply (when_present_dom _ _ _ _ append_class_image_dom) in Hm.
    congruence.
Qed.

Lemma forward_keeps_key_sets_witness :
  ∃ data',
    forward_args sample_data_dreambooth = Ok data'
    ∧ dom data' = (dom sample_data_dreambooth : gset string)
    ∧ ∃ inputs inputs',
        sample_data_dreambooth !! "inputs" = Some (VDict inputs)
        ∧ data' !! "inputs" = Some (VDict inputs')
        ∧ dom inputs' = (dom inputs : gset string).
Proof.
  eexists. split; [reflexivity |].
  apply (forward_keeps_key_sets sample_data_dreambooth). reflexivity.
Defined.

(** *** Errors of [forward] *)

(** X22: [forward] raises [KeyError], and the base class's forward is
    not called, when [data] has no 'inputs' entry, or when the inputs
    have neither 'result_class_image' nor 'img'. *)
Theorem forward_missing_keys
  {R} (base_forward : gmap string value → result R)
  (data : gmap string value) (training : bool) :
  data !! "inputs" = None
  ∨ (∃ inputs, data !! "inputs" = Some (VDict inputs)
               ∧ inputs !! "result_class_image" = None
               ∧ inputs !! "img" = None) →
  forward base_forward data training = Raise KeyError.
Proof.
  intros [Hno | (inputs & Hin & Hrci & Himg)];
    unfold forward, forward_args, getitem.
  - by rewrite Hno.
  - rewrite Hin. simpl. rewrite (when_present_absent _ _ _ Hrci). simpl.
    unfold stack_inputs, stack_key, getitem. by rewrite Himg.
Qed.

Lemma forward_missing_keys_witness :
  forward Ok ({[ "data_samples" := VNone ]} : gmap string value) false
  = Raise KeyError.
Proof. apply forward_missing_keys. left. reflexivity. Defined.

Lemma append_class_missing key inputs rci a :
  inputs !! key = Some a →
  inputs !! "result_class_image" = Some (VDict rci) →
  rci !! key = None →
  append_class key inputs = Raise KeyError.
Proof.
  intros Ha Hrci Hb. unfold append_class, getitem, dict_pop.
  rewrite Ha, Hrci. simpl. by rewrite Hb.
Qed.

(** X23: a class image must carry what the instance batch carries: when
    the inputs have 'resolution' but the class image does not, [forward]
    raises [KeyError], after 'text' and 'img' were joined. *)
Theorem forward_class_image_without_resolution
  {R} (base_forward : gmap string value → result R)
  (data inputs rci : gmap string value) (training : bool)
  (txt ctxt imgs cimgs : list value) (res : value) :
  data !! "inputs" = Some (VDict inputs) →
  inputs !! "result_class_image" = Some (VDict rci) →
  inputs !! "text" = Some (VList txt) →
  rci !! "text" = Some (VList ctxt) →
  inputs !! "img" = Some (VList imgs) →
  rci !! "img" = Some (VList cimgs) →
  inputs !! "resolution" = Some res →
  rci !! "resolution" = None →
  forward base_forward data training = Raise KeyError.
Proof.
  intros Hin Hrci Htxt Hctxt Himg Hcimg Hres Hcres.
  unfold forward, forward_args, getitem. rewrite Hin. simpl.
  rewrite (when_present_present _ _ _ _ Hrci). unfold append_class_image.
  rewrite (append_class_Ok "text" inputs rci txt ctxt) by done.
  cbn [mbind result_bind].
  erewrite (append_class_Ok "img" _ (delete "text" rci) imgs cimgs);
    [| by lookup_keys..].
  cbn [mbind result_bind].
  erewrite (when_present_present "resolution" _ _ res) by by lookup_keys.
  erewrite (append_class_missing "resolution" _
              (delete "img" (delete "text" rci)) res);
    [done | by lookup_keys..].
Qed.

Lemma forward_class_image_without_resolution_witness :
  forward Ok
    ({[ "inputs" :=
          VDict (<["result_class_image" :=
                     VDict (delete "resolution" sample_class_image)]>
                   sample_inputs) ]} : gmap string value) true
  = Raise KeyError.
Proof.
  apply (forward_class_image_without_resolution Ok _
           (<["result_class_image" :=
                VDict (delete "resolution" sample_class_image)]> sample_inputs)
           (delete "resolution" sample_class_image) true
           [VStr "a photo of sks dog"] [VStr "a photo of dog"]
           [VTensor (sample_tensor 1 2)] [VTensor (sample_tensor 3 4)]
           (VList [VTensor (sample_tensor 512 512)]));
    reflexivity.
Defined.

(** *** The joined batch *)

Lemma stack_inputs_img merged inputs' :
  stack_inputs merged = Ok inputs' →
  ∃ v b, merged !! "img" = Some v ∧ torch_stack v = Ok b
         ∧ inputs' !! "img" = Some (VTensor b)
         ∧ inputs' !! "text" = merged !! "text".
Proof.
  unfold stack_inputs. intros H.
  destruct (stack_key "img" merged) as [i1 |] eqn:E1; [| done].
  cbn [mbind result_bind] in H.
  destruct (when_present "resolution" (stack_key "resolution") i1)
    as [i2 |] eqn:E2; [| done].
  cbn [mbind result_bind] in H.
  apply stack_key_inv in E1 as (v & b & Hv & Hb & ->).
  exists v, b. split; [done |]. split; [done |].
  assert (∀ k, k ≠ "resolution" → k ≠ "aspect_ratio" →
               inputs' !! k = <["img" := VTensor b]> merged !! k) as Hk.
  { intros k ? ?. transitivity (i2 !! k).
    - unfold when_present in H. destruct (contains i2 "aspect_ratio").
      + apply stack_key_inv in H as (? & ? & _ & _ & ->).
        by apply lookup_insert_ne.
      + by injection H as <-.
    - unfold when_present in E2. destruct (contains _ "resolution").
      + apply stack_key_inv in E2 as (? & ? & _ & _ & ->).
        by apply lookup_insert_ne.
      + by injection E2 as <-. }
  split.
  - rewrite Hk by done. apply lookup_insert_eq.
  - rewrite Hk by done. by apply lookup_insert_ne.
Qed.

(** X24: captions and images stay aligned through the DreamBooth join:
    if the instance batch and the class image each have as many texts
    as images, the dict handed to the base class has as many texts as
    the first dimension of its 'img' batch. *)
Theorem forward_batch_alignment
  (data data' inputs rci : gmap string value)
  (txt ctxt imgs cimgs : list value)
  (res cres asp casp : option (list value)) :
  data !! "inputs" = Some (VDict inputs) →
  inputs !! "result_class_image" = Some (VDict rci) →
  inputs !! "text" = Some (VList txt) →
  rci !! "text" = Some (VList ctxt) →
  inputs !! "img" = Some (VList imgs) →
  rci !! "img" = Some (VList cimgs) →
  optional_lists inputs rci "resolution" res cres →
  optional_lists inputs rci "aspect_ratio" asp casp →
  length txt = length imgs →
  length ctxt = length cimgs →
  forward_args data = Ok data' →
  ∃ inputs' texts b,
    data' !! "inputs" = Some (VDict inputs')
    ∧ inputs' !! "text" = Some (VList texts)
    ∧ inputs' !! "img" = Some (VTensor b)
    ∧ shape b !! 0%nat = Some (length texts).
Proof.
  intros Hin Hrci Htxt Hctxt Himg Hcimg Hres Hasp Hl Hcl H.
  apply forward_args_inv in H as (inputs0 & merged & inputs' & Hin' & Hm & Hs & ->).
  rewrite Hin in Hin'. injection Hin' as <-.
  rewrite (when_present_present _ _ _ _ Hrci) in Hm.
  rewrite (append_class_image_Ok inputs rci txt ctxt imgs cimgs res cres
             asp casp) in Hm by done.
  injection Hm as <-.
  apply stack_inputs_img in Hs as (v & b & Hv & Hb & Hbi & Hti).
  rewrite !set_joined_lookup_ne in Hv, Hti by done.
  rewrite lookup_insert_eq in Hv. injection Hv as <-.
  rewrite lookup_insert_ne, lookup_insert_eq in Hti by done.
  apply torch_stack_Ok_inv in Hb as (s & ts & Heq & _ & _ & ->).
  exists inputs', (txt ++ ctxt)%list, (Tensor (length ts :: s) (concat (elems <$> ts))).
  split; [apply lookup_insert_eq |]. split; [done |]. split; [done |].
  simpl. f_equal.
  apply (f_equal length) in Heq.
  rewrite length_fmap, length_app in Heq. rewrite length_app. lia.
Qed.

Lemma forward_batch_alignment_witness :
  ∃ data' inputs' texts b,
    forward_args sample_data_dreambooth = Ok data'
    ∧ data' !! "inputs" = Some (VDict inputs')
    ∧ inputs' !! "text" = Some (VList texts)
    ∧ inputs' !! "img" = Some (VTensor b)
    ∧ shape b !! 0%nat = Some (length texts).
Proof.
  destruct (forward_args sample_data_dreambooth) as [data' |] eqn:E;
    [| vm_compute in E; discriminate E].
  destruct (forward_batch_alignment sample_data_dreambooth data'
              sample_inputs_dreambooth sample_class_image
              [VStr "a photo of sks dog"] [VStr "a photo of dog"]
              [VTensor (sample_tensor 1 2)] [VTensor (sample_tensor 3 4)]
              (Some [VTensor (sample_tensor 512 512)])
              (Some [VTensor (sample_tensor 256 256)]) None None)
    as (inputs' & texts & b & H);
    [reflexivity | reflexivity | reflexivity | reflexivity | reflexivity
    | reflexivity | | reflexivity | reflexivity | reflexivity | exact E |].
  - split; [reflexivity |]. eexists. split; reflexivity.
  - by exists data', inputs', texts, b.
Defined.

Lemma stack_inputs_img_error merged v e :
  merged !! "img" = Some v → torch_stack v = Raise e →
  stack_inputs merged = Raise e.
Proof.
  intros Hv He. unfold stack_inputs, stack_key, getitem.
  rewrite Hv. simpl. by rewrite He.
Qed.

(** X25: class images must have the shape of the instance images: if a
    class tensor and an instance tensor differ in shape, the join still
    happens and [forward] then raises [RuntimeError] from the stack. *)
Theorem forward_class_image_shape_mismatch
  {R} (base_forward : gmap string value → result R)
  (data inputs rci : gmap string value) (training : bool)
  (txt ctxt : list value) (ts cts : list tensor)
  (res cres asp casp : option (list value)) (t u : tensor) :
  data !! "inputs" = Some (VDict inputs) →
  inputs !! "result_class_image" = Some (VDict rci) →
  inputs !! "text" = Some (VList txt) →
  rci !! "text" = Some (VList ctxt) →
  inputs !! "img" = Some (VList (VTensor <$> ts)) →
  rci !! "img" = Some (VList (VTensor <$> cts)) →
  optional_lists inputs rci "resolution" res cres →
  optional_lists inputs rci "aspect_ratio" asp casp →
  t ∈ ts → u ∈ cts → shape t ≠ shape u →
  forward base_forward data training = Raise RuntimeError.
Proof.
  intros Hin Hrci Htxt Hctxt Himg Hcimg Hres Hasp Ht Hu Hne.
  unfold forward, forward_args, getitem. rewrite Hin. simpl.
  rewrite (when_present_present _ _ _ _ Hrci).
  rewrite (append_class_image_Ok inputs rci txt ctxt _ _ res cres asp casp)
    by done.
  cbn [mbind result_bind].
  erewrite (stack_inputs_img_error _ (VList (VTensor <$> (ts ++ cts)%list)));
    [done | |].
  - rewrite !set_joined_lookup_ne by done.
    by rewrite lookup_insert_eq, fmap_app.
  - apply (torch_stack_mixed_shapes (ts ++ cts) t u);
      [| | done]; rewrite elem_of_app; auto.
Qed.

Lemma forward_class_image_shape_mismatch_witness :
  forward Ok
    ({[ "inputs" :=
          VDict {[ "img" := VList [VTensor (sample_tensor 1 2)];
                   "text" := VList [VStr "a photo of sks dog"];
                   "result_class_image" :=
                     VDict {[ "img" := VList [VTensor (Tensor [1%nat] [3])];
                              "text" := VList [VStr "a photo of dog"] ]} ]} ]}
       : gmap string value) true
  = Raise RuntimeError.
Proof.
  apply (forward_class_image_shape_mismatch Ok _
           {[ "img" := VList [VTensor (sample_tensor 1 2)];
              "text" := VList [VStr "a photo of sks dog"];
              "result_class_image" :=
                VDict {[ "img" := VList [VTensor (Tensor [1%nat] [3])];
                         "text" := VList [VStr "a photo of dog"] ]} ]}
           {[ "img" := VList [VTensor (Tensor [1%nat] [3])];
              "text" := VList [VStr "a photo of dog"] ]} true
           [VStr "a photo of sks dog"] [VStr "a photo of dog"]
           [sample_tensor 1 2] [Tensor [1%nat] [3]] None None None None
           (sample_tensor 1 2) (Tensor [1%nat] [3]));
    [reflexivity | reflexivity | reflexivity | reflexivity | reflexivity
    | reflexivity | reflexivity | reflexivity | repeat constructor
    | repeat constructor | discriminate].
Defined.

(** *** The batch without a class image *)

Lemma when_present_stack_inv key inputs inputs' :
  when_present key (stack_key key) inputs = Ok inputs' →
  stackable_if_present inputs key ∧ ∀ k, k ≠ key → inputs' !! k = inputs !! k.
Proof.
  unfold when_present, contains. intros H.
  destruct (inputs !! key) as [v |] eqn:Hv.
  - rewrite bool_decide_eq_true_2 in H by by eexists.
    apply stack_key_inv in H as (v' & t & Hv' & Ht & ->).
    rewrite Hv in Hv'. injection Hv' as <-. split.
    + intros w Hw. rewrite Hv in Hw. injection Hw as <-. by exists t.
    + intros k Hk. by apply lookup_insert_ne.
  - rewrite bool_decide_eq_false_2 in H by (by intros [? ?]).
    injection H as <-. split; [| done]. intros w Hw. by rewrite Hv in Hw.
Qed.

(** X18: without a class image, [forward] reaches the base class's
    forward exactly when 'img' is present and accepted by
    [torch.stack], and so are 'resolution' and 'aspect_ratio' where
    present. *)
Theorem forward_returns_iff (data inputs : gmap string value) :
  data !! "inputs" = Some (VDict inputs) →
  inputs !! "result_class_image" = None →
  (∃ data', forward_args data = Ok data') ↔
  (∃ v b, inputs !! "img" = Some v ∧ torch_stack v = Ok b)
  ∧ stackable_if_present inputs "resolution"
  ∧ stackable_if_present inputs "aspect_ratio".
Proof.
  intros Hin Hrci. split.
  - intros [data' H].
    apply forward_args_inv in H as (inputs0 & merged & inputs' & Hin' & Hm & Hs & _).
    rewrite Hin in Hin'. injection Hin' as <-.
    rewrite (when_present_absent _ _ _ Hrci) in Hm. injection Hm as <-.
    unfold stack_inputs in Hs.
    destruct (stack_key "img" inputs) as [i1 |] eqn:E1; [| done].
    cbn [mbind result_bind] in Hs.
    destruct (when_present "resolution" (stack_key "resolution") i1)
      as [i2 |] eqn:E2; [| done].
    cbn [mbind result_bind] in Hs.
    apply stack_key_inv in E1 as (v & b & Hv & Hb & ->).
    apply when_present_stack_inv in E2 as [Hres Hf2].
    apply when_present_stack_inv in Hs as [Hasp _].
    split; [by exists v, b |]. split.
    + intros w Hw. apply Hres. by rewrite lookup_insert_ne.
    + intros w Hw. apply Hasp. by rewrite Hf2, lookup_insert_ne.
  - intros ((v & b & Hv & Hb) & Hres & Hasp).
    pose proof (stack_key_Ok "img" inputs v b Hv Hb) as H1.
    destruct (stack_when_present "resolution" (<["img" := VTensor b]> inputs))
      as (i2 & H2 & _ & Hf2).
    { intros w Hw. apply Hres. by rewrite lookup_insert_ne in Hw. }
    destruct (stack_when_present "aspect_ratio" i2) as (i3 & H3 & _ & _).
    { intros w Hw. apply Hasp. by rewrite Hf2, lookup_insert_ne in Hw. }
    exists (<["inputs" := VDict i3]> data).
    unfold forward_args, getitem. rewrite Hin. simpl.
    rewrite (when_present_absent _ _ _ Hrci). simpl.
    unfold stack_inputs. rewrite H1. simpl. rewrite H2. simpl.
    by rewrite H3.
Qed.

Lemma forward_returns_iff_witness :
  (∃ data', forward_args sample_data = Ok data') ↔
  (∃ v b, sample_inputs !! "img" = Some v ∧ torch_stack v = Ok b)
  ∧ stackable_if_present sample_inputs "resolution"
  ∧ stackable_if_present sample_inputs "aspect_ratio".
Proof.
  apply (forward_returns_iff sample_data sample_inputs); reflexivity.
Defined.

(** X19: without a class image, a bad 'img' batch stops [forward]
    before the base class is called: an empty list and tensors of two
    different shapes are a [RuntimeError], a list with an element that
    is not a tensor a [TypeError]. *)
Theorem forward_rejects_bad_batch
  {R} (base_forward : gmap string value → result R)
  (data inputs : gmap string value) (training : bool) (l : list value) :
  data !! "inputs" = Some (VDict inputs) →
  inputs !! "result_class_image" = None →
  inputs !! "img" = Some (VList l) →
  (l = [] → forward base_forward data training = Raise RuntimeError)
  ∧ (∀ ts t u, l = VTensor <$> ts → t ∈ ts → u ∈ ts → shape t ≠ shape u →
               forward base_forward data training = Raise RuntimeError)
  ∧ (Exists (fun v => as_tensor v = None) l →
     forward base_forward data training = Raise TypeError).
Proof.
  intros Hin Hrci Himg.
  assert (∀ e, torch_stack (VList l) = Raise e →
               forward base_forward data training = Raise e) as Herr.
  { intros e He. unfold forward, forward_args, getitem.
    rewrite Hin. simpl. rewrite (when_present_absent _ _ _ Hrci). simpl.
    by rewrite (stack_inputs_img_error inputs (VList l) e). }
  split; [| split].
  - intros ->. by apply Herr.
  - intros ts t u -> Ht Hu Hne. apply Herr.
    exact (torch_stack_mixed_shapes ts t u Ht Hu Hne).
  - intros Hex. apply Herr. unfold torch_stack.
    by rewrite mapM_as_tensor_None.
Qed.

Lemma forward_rejects_bad_batch_witness :
  forward Ok
    ({[ "inputs" := VDict {[ "img" := VList []; "text" := VList [] ]} ]}
       : gmap string value) false
  = Raise RuntimeError.
Proof.
  destruct (forward_rejects_bad_batch Ok
              ({[ "inputs" :=
                    VDict {[ "img" := VList []; "text" := VList [] ]} ]}
                 : gmap string value)
              {[ "img" := VList []; "text" := VList [] ]} false [])
    as (Hempty & _); [reflexivity.. |].
  by apply Hempty.
Defined.

(** X20: without a class image the batch can be taken apart again: for
    well-formed image tensors, the 'img' tensor handed to the base class
    is well formed, its [k]-th slice along the first dimension is the
    [k]-th image of the input list, and there is no slice past the
    end. *)
Theorem forward_batch_slices
  (data data' inputs : gmap string value) (ts : list tensor) :
  data !! "inputs" = Some (VDict inputs) →
  inputs !! "result_class_image" = None →
  inputs !! "img" = Some (VList (VTensor <$> ts)) →
  Forall tensor_wf ts →
  forward_args data = Ok data' →
  ∃ inputs' b,
    data' !! "inputs" = Some (VDict inputs')
    ∧ inputs' !! "img" = Some (VTensor b)
    ∧ tensor_wf b
    ∧ ∀ k, select b k = ts !! k.
Proof.
  intros Hin Hrci Himg Hwf H.
  apply forward_args_inv in H as (inputs0 & merged & inputs' & Hin' & Hm & Hs & ->).
  rewrite Hin in Hin'. injection Hin' as <-.
  rewrite (when_present_absent _ _ _ Hrci) in Hm. injection Hm as <-.
  apply stack_inputs_img in Hs as (v & b & Hv & Hb & Hbi & _).
  rewrite Himg in Hv. injection Hv as <-.
  exists inputs', b. split; [apply lookup_insert_eq |]. split; [done |].
  by apply torch_stack_select_round_trip.
Qed.

Lemma forward_batch_slices_witness :
  ∃ data' inputs' b,
    forward_args sample_data = Ok data'
    ∧ data' !! "inputs" = Some (VDict inputs')
    ∧ inputs' !! "img" = Some (VTensor b)
    ∧ tensor_wf b
    ∧ ∀ k, select b k = [sample_tensor 1 2] !! k.
Proof.
  destruct (forward_args sample_data) as [data' |] eqn:E;
    [| vm_compute in E; discriminate E].
  destruct (forward_batch_slices sample_data data' sample_inputs
              [sample_tensor 1 2])
    as (inputs' & b & H);
    [reflexivity | reflexivity | reflexivity | repeat constructor | exact E |].
  by exists data', inputs', b.
Defined.

End PreprocessorMore.

(** ** Further properties of the configuration files *)

Module ConfigFactsMore.
Import Configs Statements.

(** X26: in each dataset file the pipeline given to the training
    dataloader's dataset is the file's own [train_pipeline], and the
    validation and test dataloaders and evaluators are all [None]. *)
Theorem dataset_configs_wire_pipeline :
  Forall (fun f : file =>
            ((assoc "train_dataloader" f ≫= cfg_get "dataset")
               ≫= cfg_get "pipeline")
            = assoc "train_pipeline" f
            ∧ is_Some (assoc "train_pipeline" f)
            ∧ Forall (fun k => assoc k f = Some CNone)
                ["val_dataloader"; "val_evaluator";
                 "test_dataloader"; "test_evaluator"])
    dataset_base_configs.
Proof.
  unfold dataset_base_configs.
  constructor; [| constructor; [| constructor]].
  - split; [reflexivity |]. split; [by eexists |].
    repeat constructor.
  - split; [reflexivity |]. split; [by eexists |].
    repeat constructor.
Qed.

End ConfigFactsMore.
